(** * SingingModel (model.py): receptive field, mixture sampling, learning-rate
      schedule and the autoregressive inference loop.

    Python ints are [Z]. The sampling layer and the progress percentage are
    computed in float64, modelled by the primitive binary64 floats with
    their rounding; the learning rates and the values carried through the
    inference loop are read as exact rationals ([Q]). numpy arrays of rows
    are lists of rows. *)

From Stdlib Require Import ZArith QArith List String DecimalString Bool Lia Lqa.
From Stdlib Require Import Floats.
From Stdlib Require DecimalPos DecimalZ Uint63.
Import ListNotations.

Open Scope Z_scope.

(* ===================================================================== *)
(** * Part I. Definitions                                                  *)
(* ===================================================================== *)

(** ** Python helpers *)

(** [range(n)]: the integers 0 .. n-1, empty when [n <= 0]. *)
Definition range (n : Z) : list Z := map Z.of_nat (seq 0 (Z.to_nat n)).

(** Sum of a list of integers. *)
Definition Zsum (l : list Z) : Z := fold_right Z.add 0 l.

(** ** Hyperparameters *)

(** The per-variant parser namespace ([h_parser], [a_parser], [f_parser]):
    the fields that model.py reads. *)
Record MParams := {
  levels : Z;
  blocks : Z;
  dil_chan : Z;
  res_chan : Z;
  skip_chan : Z;
  out_chan : Z;
  init_kernel : Z;
  kernel : Z;
  start_pad : Z;
  epochs : Z;
  learn_rate : Q;
  temp : Q
}.

(** The attributes of a [SingingModel] instance that the modelled methods
    read: the three hyperparameter sets and the two channel counts of
    [m_parser]. The GUI collaborator is passed separately. *)
Record SingingModel := {
  h_parser : MParams;
  a_parser : MParams;
  f_parser : MParams;
  mcep_order : Z;
  ap_channels : Z
}.

(** [model_type] dispatch shared by the methods: 0 harmonic, 1 aperiodic,
    anything else frequency. *)
Definition select_params (self : SingingModel) (model_type : Z) : MParams :=
  if model_type =? 0 then h_parser self
  else if model_type =? 1 then a_parser self
  else f_parser self.

(** ** get_receptive_field *)

(** Body of [for j in range(neural_levels)], on the pair
    [(receptive_field, add_scope)]. *)
Definition rf_level_step (st : Z * Z) (j : Z) : Z * Z :=
  let '(receptive_field, add_scope) := st in
  (receptive_field + add_scope, add_scope * 2).

(** Body of [for i in range(m_params.blocks)]. *)
Definition rf_block_step (m_params : MParams) (receptive_field : Z) (i : Z) : Z :=
  let neural_levels := levels m_params in
  let add_scope := kernel m_params - 1 in
  let neural_levels :=
    if i =? blocks m_params - 1 then levels m_params - 1 else neural_levels in
  fst (fold_left rf_level_step (range neural_levels) (receptive_field, add_scope)).

Definition receptive_field_of (m_params : MParams) : Z :=
  let receptive_field := 1 in
  let receptive_field :=
    fold_left (rf_block_step m_params) (range (blocks m_params)) receptive_field in
  receptive_field + init_kernel m_params - 1.

Definition get_receptive_field (self : SingingModel) (model_type : Z) : Z :=
  receptive_field_of (select_params self model_type).

(** ** build_model: the dilated stack *)

(** One [Conv1D(dil_chan * 2, kernel_size, padding="causal",
    dilation_rate=...)] layer of the stack, named by block and level. *)
Record DilatedConv := {
  conv_block : Z;
  conv_level : Z;
  conv_filters : Z;
  conv_kernel_size : Z;
  conv_dilation_rate : Z
}.

(** Body of [for j in range(neural_levels)] in [build_model], on the pair
    (layers built so far, [dilation_rate]). *)
Definition build_level_step (m_params : MParams) (i : Z)
    (st : list DilatedConv * Z) (j : Z) : list DilatedConv * Z :=
  let '(layers, dilation_rate) := st in
  (layers ++ [{| conv_block := i; conv_level := j;
                 conv_filters := dil_chan m_params * 2;
                 conv_kernel_size := kernel m_params;
                 conv_dilation_rate := dilation_rate |}],
   dilation_rate * 2).

(** Body of [for i in range(blocks)] in [build_model]. *)
Definition build_block_step (m_params : MParams)
    (layers : list DilatedConv) (i : Z) : list DilatedConv :=
  let neural_levels := levels m_params in
  let dilation_rate := 1 in
  let neural_levels :=
    if i =? blocks m_params - 1 then levels m_params - 1 else neural_levels in
  fst (fold_left (build_level_step m_params i) (range neural_levels)
         (layers, dilation_rate)).

(** The dilated convolutions that [build_model] stacks, in order. *)
Definition build_model_dilated (m_params : MParams) : list DilatedConv :=
  fold_left (build_block_step m_params) (range (blocks m_params)) [].

(** ** The receptive field as the specification words it *)

(** Number of levels of block [b]: the final block has one fewer. *)
Definition spec_levels_in_block (m_params : MParams) (b : Z) : Z :=
  if b =? blocks m_params - 1 then levels m_params - 1 else levels m_params.

(** Dilation at level [j] of any block: 1 at the block start, doubling per
    level. *)
Definition spec_dilation (j : Z) : Z := 2 ^ j.

(** init_kernel - 1 + 1 + the sum over all dilated layers of
    (kernel - 1) * dilation. *)
Definition spec_receptive_field (m_params : MParams) : Z :=
  init_kernel m_params - 1 + 1 +
  Zsum (map (fun b =>
          Zsum (map (fun j => (kernel m_params - 1) * spec_dilation j)
                  (range (spec_levels_in_block m_params b))))
        (range (blocks m_params))).

(** Total dilation summed over the stack: [blocks - 1] full blocks and a
    final block with one level fewer. *)
Definition total_dilation (bl lv : Z) : Z :=
  (bl - 1) * (2 ^ lv - 1) + (2 ^ (lv - 1) - 1).

(** A hyperparameter set is valid when its four architecture sizes are
    at least 1. *)
Definition valid_params (m_params : MParams) : Prop :=
  1 <= blocks m_params /\ 1 <= levels m_params /\
  1 <= kernel m_params /\ 1 <= init_kernel m_params.

(** Hyperparameters with the given architecture sizes (other fields are
    not read by the receptive-field computation). *)
Definition arch (lv bl kn ik : Z) : MParams :=
  {| levels := lv; blocks := bl; dil_chan := 1; res_chan := 1; skip_chan := 1;
     out_chan := 12; init_kernel := ik; kernel := kn; start_pad := ik - 1;
     epochs := 1; learn_rate := 1 # 1000; temp := 1 |}.

(** A model whose three variants share one hyperparameter set. *)
Definition uniform_model (m_params : MParams) : SingingModel :=
  {| h_parser := m_params; a_parser := m_params; f_parser := m_params;
     mcep_order := 60; ap_channels := 4 |}.

(** ** Tensors of the sampling layer *)

(** After [output[:, -1, :]] and [expand_dims], every tensor of
    [sample_output] has shape (batch, 1, channels); an element is addressed
    by (batch, channel). *)
Definition Index : Type := (nat * nat)%type.
Definition BoolTensor : Type := Index -> bool.

(** ** The selection test of sample_output, in exact arithmetic *)

(** The cumulative sums and the two comparisons of the selection test, read
    over the rationals: the weights are taken at their exact values and
    the sums are not rounded. The float64 computation, with its rounding,
    follows in module [F64]. *)
Definition Tensor : Type := Index -> Q.

Module k_back.

Definition zeros_like (t : Tensor) : Tensor := fun _ => 0%Q.

Definition add (a b : Tensor) : Tensor := fun ix => (a ix + b ix)%Q.

(** [less(a, b)]: a < b. *)
Definition less (a b : Tensor) : BoolTensor :=
  fun ix => negb (Qle_bool (b ix) (a ix)).

(** [greater_equal(a, b)]: a >= b. *)
Definition greater_equal (a b : Tensor) : BoolTensor :=
  fun ix => Qle_bool (b ix) (a ix).

Definition logical_and (a b : BoolTensor) : BoolTensor :=
  fun ix => a ix && b ix.

End k_back.

(** What [multi_params(output, temp)] returns: per component [k], the
    tensors [means[k]], [sigmas[k]], [weights[k]]. *)
Record MixtureParams := {
  means : nat -> Tensor;
  sigmas : nat -> Tensor;
  weights : nat -> Tensor
}.

(** [mask_set] after [for i in range(k): mask_set = mask_set + weights[i]]. *)
Definition mask_set_of (mp : MixtureParams) (k : nat) : Tensor :=
  fold_left (fun mask_set i => k_back.add mask_set (weights mp i))
    (seq 0 k) (k_back.zeros_like (weights mp k)).

(** [mask] of component [k], before the cast. *)
Definition component_mask (mp : MixtureParams) (random : Tensor) (k : nat) : BoolTensor :=
  let mask_set := mask_set_of mp k in
  let mask_a := k_back.less random (k_back.add (weights mp k) mask_set) in
  let mask_b := k_back.greater_equal random mask_set in
  k_back.logical_and mask_a mask_b.

(** Number of components whose mask is set at element [ix]. *)
Definition masks_set (mp : MixtureParams) (random : Tensor) (ix : Index) : nat :=
  List.length (filter (fun k => component_mask mp random k ix) (seq 0 4)).

(** Sample inputs: a tensor with one value everywhere, and mixture
    parameters that do not vary over the elements. *)
Definition const_tensor (q : Q) : Tensor := fun _ => q.


(** ** sample_output in float64 *)

(** The sampling layer as the backend computes it: every tensor holds
    float64 values, each sum and product is rounded, and a comparison with
    a NaN is False. *)
Module F64.

Definition Tensor : Type := Index -> float.

Module k_back.

Definition zeros_like (t : Tensor) : Tensor := fun _ => PrimFloat.zero.

Definition add (a b : Tensor) : Tensor := fun ix => PrimFloat.add (a ix) (b ix).

Definition mul (a b : Tensor) : Tensor := fun ix => PrimFloat.mul (a ix) (b ix).

(** [less(a, b)]: a < b. *)
Definition less (a b : Tensor) : BoolTensor := fun ix => PrimFloat.ltb (a ix) (b ix).

(** [greater_equal(a, b)]: a >= b. *)
Definition greater_equal (a b : Tensor) : BoolTensor :=
  fun ix => PrimFloat.leb (b ix) (a ix).

Definition logical_and (a b : BoolTensor) : BoolTensor := fun ix => a ix && b ix.

(** [cast(mask, dtype='float64')]: True is 1.0, False is 0.0. *)
Definition cast (m : BoolTensor) : Tensor :=
  fun ix => if m ix then PrimFloat.one else PrimFloat.zero.

(** [random_normal(shape, mean, stddev)]: the standard-normal draws [z]
    times [stddev], plus [mean]. *)
Definition random_normal (z mean stddev : Tensor) : Tensor :=
  fun ix => PrimFloat.add (PrimFloat.mul (z ix) (stddev ix)) (mean ix).

End k_back.

(** What [multi_params(output, temp)] (module model_utils) returns: per
    component [k], the tensors [means[k]], [sigmas[k]], [weights[k]]. *)
Record MixtureParams := {
  means : nat -> Tensor;
  sigmas : nat -> Tensor;
  weights : nat -> Tensor
}.

(** The random numbers one call of [sample_output] consumes: the result of
    [random_uniform] and, for the [k]-th call of [random_normal], its
    standard-normal draws. *)
Record Draws := {
  uniform : Tensor;
  normal : nat -> Tensor
}.

(** [out = 0; for k in range(4): out += means[k] * weights[k]]. *)
Definition weighted_expectation (mp : MixtureParams) : Tensor :=
  fold_left (fun out k => k_back.add out (k_back.mul (means mp k) (weights mp k)))
    (seq 0 4) (fun _ => PrimFloat.zero).

(** [mask_set] after [for i in range(k): mask_set = mask_set + weights[i]]. *)
Definition mask_set_of (mp : MixtureParams) (k : nat) : Tensor :=
  fold_left (fun mask_set i => k_back.add mask_set (weights mp i))
    (seq 0 k) (k_back.zeros_like (weights mp k)).

(** [weights[k] + mask_set], the bound [random] is tested against. *)
Definition upper_bound (mp : MixtureParams) (k : nat) : Tensor :=
  k_back.add (weights mp k) (mask_set_of mp k).

(** [mask] of component [k], before the cast. *)
Definition component_mask (mp : MixtureParams) (random : Tensor) (k : nat) : BoolTensor :=
  let mask_set := mask_set_of mp k in
  let mask_a := k_back.less random (k_back.add (weights mp k) mask_set) in
  let mask_b := k_back.greater_equal random mask_set in
  k_back.logical_and mask_a mask_b.

(** [distribution] of component [k]. *)
Definition component_distribution (mp : MixtureParams) (d : Draws) (k : nat) : Tensor :=
  k_back.random_normal (normal d k) (means mp k) (sigmas mp k).

(** Body of the second [for k in range(4)] loop. *)
Definition sample_step (mp : MixtureParams) (d : Draws) (random : Tensor)
    (spectral_value : Tensor) (k : nat) : Tensor :=
  let mask := k_back.cast (component_mask mp random k) in
  let distribution := component_distribution mp d k in
  k_back.add spectral_value (k_back.mul mask distribution).

(** [sample_output(output, temp)], with [multi_params] and the random
    draws as arguments; [None] is the failure of [output[:, -1, :]] on an
    empty time axis. *)
Definition sample_output (multi_params : Tensor -> float -> MixtureParams) (d : Draws)
    (output : list Tensor) (temp : float) : option Tensor :=
  match rev output with
  | [] => None
  | output :: _ =>
      let mp := multi_params output temp in
      let out := weighted_expectation mp in
      let spectral_value := k_back.zeros_like (means mp 0%nat) in
      let random := uniform d in
      Some (fold_left (sample_step mp d random) (seq 0 4) spectral_value)
  end.

(** The sum the loop builds at one element, from the four masks and the
    four component samples there. *)
Definition masked_sum (mask : nat -> bool) (distribution : nat -> float) : float :=
  fold_left
    (fun spectral_value k =>
       PrimFloat.add spectral_value
         (PrimFloat.mul (if mask k then PrimFloat.one else PrimFloat.zero)
            (distribution k)))
    (seq 0 4) PrimFloat.zero.

(** Number of components whose mask is set at element [ix]. *)
Definition masks_set (mp : MixtureParams) (random : Tensor) (ix : Index) : nat :=
  List.length (filter (fun k => component_mask mp random k ix) (seq 0 4)).

(** A float that is neither an infinity nor a NaN. *)
Definition finite (x : float) : bool :=
  match Prim2SF x with
  | S754_zero _ | S754_finite _ _ _ => true
  | _ => false
  end.

(** The rational a finite float stands for (0 for the others). *)
Definition exact (x : float) : Q :=
  match Prim2SF x with
  | S754_finite s m e =>
      ((if s then -1 else 1) * inject_Z (Z.pos m) * Qpower 2 e)%Q
  | _ => 0%Q
  end.

(** Sample inputs: mixture parameters and draws that do not vary over the
    elements, given component by component. *)
Definition const_tensor (x : float) : Tensor := fun _ => x.

Definition params_of (mu sigma w : list float) : MixtureParams :=
  {| means := fun k => const_tensor (nth k mu PrimFloat.zero);
     sigmas := fun k => const_tensor (nth k sigma PrimFloat.zero);
     weights := fun k => const_tensor (nth k w PrimFloat.zero) |}.

Definition const_draws (u z : float) : Draws :=
  {| uniform := const_tensor u; normal := fun _ => const_tensor z |}.

End F64.

(** ** lr_scheduler *)

Definition lr_scheduler (epoch : Z) (lr : Q) : Q :=
  (lr / (1 + (1 # 100000) * inject_Z epoch))%Q.




(** ** numpy arrays *)

(** A row of a two-dimensional float array, and the array as its rows. *)
Definition Row : Type := list Q.
Definition Array : Type := list Row.

(** [np.zeros((rows, cols))]. *)
Definition zeros (rows cols : Z) : Array :=
  repeat (repeat 0%Q (Z.to_nat cols)) (Z.to_nat rows).

(** A slice bound of Python, normalised against the length: a negative bound
    counts from the end, and both are clipped to [0, len]. *)
Definition slice_bound (len i : Z) : Z :=
  if i <? 0 then Z.max 0 (i + len) else Z.min i len.

(** [a[start:end_]] on the first axis. *)
Definition slice {A : Type} (a : list A) (start end_ : Z) : list A :=
  let len := Z.of_nat (List.length a) in
  let lo := slice_bound len start in
  let hi := slice_bound len end_ in
  firstn (Z.to_nat (hi - lo)) (skipn (Z.to_nat lo) a).

(** [a[i, :] = r] for [0 <= i < len(a)], the only indices the loop of
    [inference] uses (numpy raises IndexError beyond; here the array is
    left unchanged). *)
Fixpoint set_nth {A : Type} (a : list A) (i : nat) (r : A) : list A :=
  match a, i with
  | [], _ => []
  | _ :: a', O => r :: a'
  | x :: a', S i' => x :: set_nth a' i' r
  end.

Definition set_row (a : Array) (i : Z) (r : Row) : Array :=
  if i <? 0 then a else set_nth a (Z.to_nat i) r.

(** [np.concatenate([a, b], axis=1)] for two arrays with the same number
    of rows, which is what [inference] hands it when [spectral_data] has a
    row for every step ([spectral_rows] below). On arrays of different
    heights numpy raises ValueError and this function does not describe
    it. *)
Definition concatenate_cols (a b : Array) : Array :=
  map (fun xy => fst xy ++ snd xy) (combine a b).

(** [np.pad(a, ((1, 0), (0, 0)))]: one row of zeros before the first row. *)
Definition pad_start (a : Array) : Array :=
  repeat 0%Q (List.length (hd [] a)) :: a.

(** ** The collaborators of inference *)

(** [generator.predict([model_input, labels])] followed by the squeeze of
    the batch axis: the row sampled for the current step. The first argument
    is the number of the call, which stands for the random draws it uses. *)
Definition Generator : Type := Z -> Array -> Array -> Row.

(** The widgets of [gen_gui.ids] that [inference] writes. *)
Record GuiIds := {
  s_progress_bar : Z;
  s_progress_value : string;
  a_progress_bar : Z;
  a_progress_value : string;
  f_progress_bar : Z;
  f_progress_value : string
}.

(** The GUI collaborator: [kill_signal i] is the value of the flag when it
    is read at the end of step [i]. *)
Record GenGui := {
  kill_signal : Z -> bool;
  ids : GuiIds
}.

(** What lies outside model.py: which files exist, and what [load_model]
    followed by the sampling layer yields for a path and a temperature. *)
Record Env := {
  isfile : string -> bool;
  load_generator : string -> Q -> Generator
}.

(** A call either ends the process ([sys.exit(msg)]) or returns. *)
Inductive outcome (A : Type) : Type :=
| SysExit (msg : string)
| Returned (a : A).
Arguments SysExit {A} msg.
Arguments Returned {A} a.

(** ** get_generator *)

Definition get_generator (env : Env) (model_path : string) (self : SingingModel)
    (model_type : Z) : outcome Generator :=
  let '(model_loc, temp) :=
    if model_type =? 0 then ((model_path ++ "/harmonic_model.h5")%string, temp (h_parser self))
    else if model_type =? 1 then ((model_path ++ "/aperiodic_model.h5")%string, temp (a_parser self))
    else ((model_path ++ "/frequency_model.h5")%string, temp (f_parser self)) in
  if negb (isfile env model_loc)
  then SysExit ("Cannot find model :" ++ model_loc)
  else Returned (load_generator env model_loc temp).

(** ** inference *)

(** [str(n)] of an int. *)
Definition str (n : Z) : string := NilZero.string_of_int (Z.to_int n).

(** [progress_bar.value] of the variant. *)
Definition bar_value (model_type : Z) (g : GuiIds) : Z :=
  if model_type =? 0 then s_progress_bar g
  else if model_type =? 1 then a_progress_bar g
  else f_progress_bar g.

(** [progress_bar.value = v]. *)
Definition set_bar_value (model_type : Z) (v : Z) (g : GuiIds) : GuiIds :=
  if model_type =? 0 then
    {| s_progress_bar := v; s_progress_value := s_progress_value g;
       a_progress_bar := a_progress_bar g; a_progress_value := a_progress_value g;
       f_progress_bar := f_progress_bar g; f_progress_value := f_progress_value g |}
  else if model_type =? 1 then
    {| s_progress_bar := s_progress_bar g; s_progress_value := s_progress_value g;
       a_progress_bar := v; a_progress_value := a_progress_value g;
       f_progress_bar := f_progress_bar g; f_progress_value := f_progress_value g |}
  else
    {| s_progress_bar := s_progress_bar g; s_progress_value := s_progress_value g;
       a_progress_bar := a_progress_bar g; a_progress_value := a_progress_value g;
       f_progress_bar := v; f_progress_value := f_progress_value g |}.

(** [progress_status.text = t]. *)
Definition set_status_text (model_type : Z) (t : string) (g : GuiIds) : GuiIds :=
  if model_type =? 0 then
    {| s_progress_bar := s_progress_bar g; s_progress_value := t;
       a_progress_bar := a_progress_bar g; a_progress_value := a_progress_value g;
       f_progress_bar := f_progress_bar g; f_progress_value := f_progress_value g |}
  else if model_type =? 1 then
    {| s_progress_bar := s_progress_bar g; s_progress_value := s_progress_value g;
       a_progress_bar := a_progress_bar g; a_progress_value := t;
       f_progress_bar := f_progress_bar g; f_progress_value := f_progress_value g |}
  else
    {| s_progress_bar := s_progress_bar g; s_progress_value := s_progress_value g;
       a_progress_bar := a_progress_bar g; a_progress_value := a_progress_value g;
       f_progress_bar := f_progress_bar g; f_progress_value := t |}.

Definition model_status_type (model_type : Z) : string :=
  if model_type =? 0 then "Spectral Envelope"
  else if model_type =? 1 then "Aperiodic Envelope"
  else "Frequency".

(** [(channels, init_channels)] of the variant. *)
Definition channel_counts (self : SingingModel) (model_type : Z) : Z * Z :=
  let init_channels := mcep_order self in
  if model_type =? 0 then (init_channels, init_channels)
  else if model_type =? 1 then (ap_channels self, init_channels + ap_channels self)
  else (1, 1).

(** [labels = label_data[start:end, :]] of step [i]. *)
Definition label_window (receptive_field : Z) (label_data : Array) (i : Z) : Array :=
  let '(start, end_) :=
    if i <? receptive_field then (0, i + 1) else (i + 1 - receptive_field, i + 1) in
  slice label_data start end_.

(** The [model_input] prepared at the end of step [i] for step [i + 1],
    from the [output] array of that moment. *)
Definition next_model_input (receptive_field : Z) (spectral_data : option Array)
    (output : Array) (i : Z) : Array :=
  if i <? receptive_field - 1 then
    let model_input := slice output 0 (i + 1) in
    let model_input :=
      match spectral_data with
      | Some spectral_data =>
          concatenate_cols model_input (slice spectral_data 0 (i + 1))
      | None => model_input
      end in
    pad_start model_input
  else
    let model_input := slice output (i + 1 - receptive_field) (i + 1) in
    match spectral_data with
    | Some spectral_data =>
        concatenate_cols model_input
          (slice spectral_data (i + 1 - receptive_field) (i + 1))
    | None => model_input
    end.

(** The variables the loop of [inference] carries from step to step, and
    the GUI object, whose widgets the loop writes. *)
Record LoopState := {
  model_input : Array;
  output : Array;
  gen_gui : option GenGui
}.

(** The loop body up to [model_input = np.expand_dims(model_input, axis=0)]. *)
Definition generate_step (generator : Generator) (receptive_field : Z)
    (label_data : Array) (spectral_data : option Array) (i : Z) (st : LoopState)
    : LoopState :=
  let labels := label_window receptive_field label_data i in
  let generated := generator i (model_input st) labels in
  let output := set_row (output st) i generated in
  {| model_input := next_model_input receptive_field spectral_data output i;
     output := output;
     gen_gui := gen_gui st |}.

(** [float(n)] of an int from 0 up. The conversion is exact below 2^53;
    the loop of [inference] counts the rows of an array, far below that. *)
Definition float_of_int (n : Z) : float := PrimFloat.of_uint63 (Uint63.of_Z n).

(** [int(x)] of a float: the integer part, rounding toward zero. On an
    infinity or a NaN Python raises, and 0 stands for that here; the loop
    never hands it one (X19 below). *)
Definition int_of_float (x : float) : Z :=
  match Prim2SF x with
  | S754_finite s m e =>
      let magnitude := if 0 <=? e then Z.pos m * 2 ^ e else Z.pos m / 2 ^ (- e) in
      if s then - magnitude else magnitude
  | _ => 0
  end.

(** [(i / audio_length) * 100]: the true division of two ints gives the
    float64 nearest to the quotient, and the product with 100 is rounded
    again. *)
Definition percent (i audio_length : Z) : float :=
  PrimFloat.mul (PrimFloat.div (float_of_int i) (float_of_int audio_length))
    (float_of_int 100).

(** [int((i / audio_length) * 100)]. *)
Definition int_percent (i audio_length : Z) : Z := int_of_float (percent i audio_length).

(** A specification float that is neither an infinity nor a NaN. *)
Definition finite_sf (x : spec_float) : bool :=
  match x with S754_zero _ | S754_finite _ _ _ => true | _ => false end.

(** The two widget writes that end a step when a GUI is attached. *)
Definition report_progress (model_type audio_length i : Z) (gui : GenGui) : GenGui :=
  let g := set_bar_value model_type (int_percent i audio_length) (ids gui) in
  let g :=
    set_status_text model_type
      (model_status_type model_type ++ " progress: " ++ str (bar_value model_type g) ++ "%")
      g in
  {| kill_signal := kill_signal gui; ids := g |}.

(** How the loop ends: on [return None] inside a step, or by running out
    of indices. *)
Inductive LoopExit : Type :=
| Killed (gui : GenGui)
| Completed (st : LoopState).

(** [for i in tqdm(range(audio_length))], run on the remaining indices. *)
Fixpoint inference_loop (generator : Generator) (receptive_field : Z)
    (label_data : Array) (model_type : Z) (spectral_data : option Array)
    (audio_length : Z) (steps : list Z) (st : LoopState) : LoopExit :=
  match steps with
  | [] => Completed st
  | i :: steps' =>
      let st := generate_step generator receptive_field label_data spectral_data i st in
      match gen_gui st with
      | Some gui =>
          if kill_signal gui i then Killed gui
          else
            inference_loop generator receptive_field label_data model_type
              spectral_data audio_length steps'
              {| model_input := model_input st; output := output st;
                 gen_gui := Some (report_progress model_type audio_length i gui) |}
      | None =>
          inference_loop generator receptive_field label_data model_type
            spectral_data audio_length steps' st
      end
  end.

(** What [inference] hands back: the returned value ([None] or the output
    array) and the widgets as the call leaves them. *)
Record InferenceResult := {
  returned : option Array;
  widgets : option GuiIds
}.

(** State of the loop variables when the loop starts. *)
Definition initial_state (self : SingingModel) (gui : option GenGui)
    (label_data : Array) (model_type : Z) : LoopState :=
  let '(channels, init_channels) := channel_counts self model_type in
  let audio_length := Z.of_nat (List.length label_data) in
  {| model_input := zeros 1 init_channels;
     output := zeros audio_length channels;
     gen_gui := gui |}.

Definition inference (env : Env) (model_path : string) (self : SingingModel)
    (gui : option GenGui) (label_data : Array) (model_type : Z)
    (spectral_data : option Array) : outcome InferenceResult :=
  match get_generator env model_path self model_type with
  | SysExit msg => SysExit msg
  | Returned generator =>
      let receptive_field := get_receptive_field self model_type in
      let audio_length := Z.of_nat (List.length label_data) in
      match
        inference_loop generator receptive_field label_data model_type
          spectral_data audio_length (range audio_length)
          (initial_state self gui label_data model_type)
      with
      | Killed gui => Returned {| returned := None; widgets := Some (ids gui) |}
      | Completed st =>
          Returned
            {| returned := Some (output st);
               widgets :=
                 option_map
                   (fun gui =>
                      set_status_text model_type
                        (model_status_type model_type ++ " generation complete")
                        (ids gui))
                   (gen_gui st) |}
      end
  end.

(** ** The run of the loop, step by step *)

(** The companion columns of rows [lo .. hi) joined to a window, when
    [spectral_data] is given. *)
Definition attach_spectral (spectral_data : option Array) (lo hi : Z) (window : Array)
    : Array :=
  match spectral_data with
  | Some spectral_data => concatenate_cols window (slice spectral_data lo hi)
  | None => window
  end.

Section Trace.

Variable generator : Generator.
Variable receptive_field : Z.
Variable label_data : Array.
Variable spectral_data : option Array.
Variable st0 : LoopState.

(** The loop variables after the given steps, none of which returns. *)
Definition run_steps (steps : list Z) (st : LoopState) : LoopState :=
  fold_left
    (fun st i => generate_step generator receptive_field label_data spectral_data i st)
    steps st.

(** The loop variables when step [t] starts. *)
Definition state_before (t : Z) : LoopState := run_steps (range t) st0.

(** The row that step [t] generates. *)
Definition generated_row (t : Z) : Row :=
  generator t (model_input (state_before t)) (label_window receptive_field label_data t).

(** The rows generated before step [t], in order. *)
Definition generated_rows (t : Z) : Array := map generated_row (range t).

End Trace.

(** Two states agree on what the generation reads and writes. *)
Definition same_arrays (st1 st2 : LoopState) : Prop :=
  model_input st1 = model_input st2 /\ output st1 = output st2.

(** A row of zeros only. *)
Definition zero_row (r : Row) : Prop := Forall (fun q => q = 0%Q) r.

(** [spectral_data], when given, has a row for each of the [n] steps. *)
Definition spectral_rows (spectral_data : option Array) (n : Z) : Prop :=
  match spectral_data with
  | Some spectral_data => n <= Z.of_nat (List.length spectral_data)
  | None => True
  end.

(** Sample collaborators: every file exists, the generator answers with
    one row holding the call number plus 1, and a GUI whose flag is read as set
    from step [k] on. *)
Definition counting_generator : Generator := fun i _ _ => [inject_Z (i + 1)].

Definition sample_env : Env :=
  {| isfile := fun _ => true;
     load_generator := fun _ _ => counting_generator |}.

Definition blank_ids : GuiIds :=
  {| s_progress_bar := 0; s_progress_value := EmptyString;
     a_progress_bar := 0; a_progress_value := EmptyString;
     f_progress_bar := 0; f_progress_value := EmptyString |}.

Definition gui_killed_from (k : Z) : GenGui :=
  {| kill_signal := fun i => k <=? i; ids := blank_ids |}.

(** [n] label rows of one channel. *)
Definition sample_labels (n : nat) : Array := repeat [1%Q] n.

(** ** build_model: layer names *)

(** [layer_name = "_Block_" + str(i) + "_Level_" + str(j)]. *)
Definition layer_name (i j : Z) : string :=
  ("_Block_" ++ str i ++ "_Level_" ++ str j)%string.

(** The name of a layer of the iteration that creates the dilated
    convolution [c]: a prefix such as ['dilated_conv'], ['label_conv'],
    ['skip'] or ['residual'], then [layer_name]. *)
Definition iteration_name (prefix : string) (c : DilatedConv) : string :=
  (prefix ++ layer_name (conv_block c) (conv_level c))%string.

(** A character of a decimal numeral. *)
Definition is_digit (c : Ascii.ascii) : bool :=
  let n := Ascii.nat_of_ascii c in (48 <=? n)%nat && (n <=? 57)%nat.

(** A string of decimal digits only. *)
Fixpoint all_digits (s : string) : bool :=
  match s with
  | EmptyString => true
  | String c s' => is_digit c && all_digits s'
  end.

(** ** build_model: the calls into Keras *)

Module keras.

(** A layer as [build_model] creates it and applies it to its inputs, with
    the arguments model.py computes from the hyperparameters. The
    regulariser, the initialiser and [use_bias] are the same in every call
    and are left out. *)
Inductive Layer : Type :=
| Input (channels : Z)
| ZeroPadding1D (left_pad right_pad : Z) (name : string)
| Conv1D (filters kernel_size : Z) (padding : string) (dilation_rate : Z) (name : string)
| Add (name : string)
| Lambda (name : string)
| Activation (activation name : string)
| Multiply (name : string)
| Model.

End keras.

(** Keras itself is outside model.py. An [accepts graph layer] tells
    whether creating [layer] and applying it, once the layers of [graph]
    exist, goes through ([true]) or raises ([false]). *)
Definition Keras : Type := list keras.Layer -> keras.Layer -> bool.

(** The layers created so far, or [None] once an exception has left
    [build_model]. *)
Definition Graph : Type := option (list keras.Layer).

(** A constructor call and its application: an exception ends the build. *)
Definition create (accepts : Keras) (layer : keras.Layer) (graph : Graph) : Graph :=
  match graph with
  | Some layers => if accepts layers layer then Some (layers ++ [layer]) else None
  | None => None
  end.

(** The same inside [try: ... except: ...]: an exception is caught and the
    build goes on without the layer. *)
Definition try_create (accepts : Keras) (layer : keras.Layer) (graph : Graph) : Graph :=
  match graph with
  | Some layers => if accepts layers layer then Some (layers ++ [layer]) else Some layers
  | None => None
  end.

(** Body of [for j in range(neural_levels)] in [build_model], on the pair
    (graph, [dilation_rate]). *)
Definition build_model_level (accepts : Keras) (m_params : MParams) (i : Z)
    (st : Graph * Z) (j : Z) : Graph * Z :=
  let '(graph, dilation_rate) := st in
  let layer_name := layer_name i j in
  let graph :=
    create accepts
      (keras.Conv1D (dil_chan m_params * 2) 1 "valid" 1 ("label_conv" ++ layer_name))
      graph in
  let graph :=
    create accepts
      (keras.Conv1D (dil_chan m_params * 2) (kernel m_params) "causal" dilation_rate
         ("dilated_conv" ++ layer_name))
      graph in
  let graph := create accepts (keras.Add ("add_label_dil" ++ layer_name)) graph in
  let graph := create accepts (keras.Lambda ("split" ++ layer_name)) graph in
  let graph := create accepts (keras.Activation "tanh" ("filter" ++ layer_name)) graph in
  let graph := create accepts (keras.Activation "sigmoid" ("gate" ++ layer_name)) graph in
  let graph := create accepts (keras.Multiply ("multiply" ++ layer_name)) graph in
  let graph :=
    create accepts (keras.Conv1D (skip_chan m_params) 1 "valid" 1 ("skip" ++ layer_name))
      graph in
  let graph := try_create accepts (keras.Add ("add_skip" ++ layer_name)) graph in
  let graph :=
    create accepts
      (keras.Conv1D (res_chan m_params) 1 "valid" 1 ("residual" ++ layer_name)) graph in
  let graph := create accepts (keras.Add ("add_res" ++ layer_name)) graph in
  (graph, dilation_rate * 2).

(** Body of [for i in range(blocks)] in [build_model]. *)
Definition build_model_block (accepts : Keras) (m_params : MParams)
    (graph : Graph) (i : Z) : Graph :=
  let neural_levels := levels m_params in
  let dilation_rate := 1 in
  let neural_levels :=
    if i =? blocks m_params - 1 then levels m_params - 1 else neural_levels in
  fst (fold_left (build_model_level accepts m_params i) (range neural_levels)
         (graph, dilation_rate)).

(** [build_model(data_handler, m_params)]; [input_chan] and [cond_chan]
    are what [data_handler] answers for the data and label channels. *)
Definition build_model (accepts : Keras) (input_chan cond_chan : Z) (m_params : MParams)
    : Graph :=
  let graph := Some [] in
  let graph := create accepts (keras.Input input_chan) graph in
  let graph := create accepts (keras.Input cond_chan) graph in
  let graph :=
    create accepts (keras.ZeroPadding1D (start_pad m_params) 0 "start_pad") graph in
  let graph :=
    create accepts
      (keras.Conv1D (res_chan m_params) (init_kernel m_params) "valid" 1 "start-conv")
      graph in
  let graph :=
    fold_left (build_model_block accepts m_params) (range (blocks m_params)) graph in
  let graph :=
    create accepts (keras.Conv1D (skip_chan m_params) 1 "valid" 1 "label_out") graph in
  let graph := create accepts (keras.Add "add_skip_out") graph in
  let graph := create accepts (keras.Activation "tanh" "output") graph in
  let graph :=
    create accepts (keras.Conv1D (out_chan m_params) 1 "valid" 1 "final-output") graph in
  create accepts keras.Model graph.

(** A Keras that raises on a convolution whose kernel size is not positive
    and on nothing else. *)
Definition checks_kernel_size : Keras :=
  fun _ layer =>
    match layer with
    | keras.Conv1D _ kernel_size _ _ _ => 0 <? kernel_size
    | _ => true
    end.

(** ** train_model *)

(** The data a training run reads: the harmonic data set after
    [set_type(model_type)], or the frequency data set. *)
Inductive DataHandler : Type :=
| HarmonicData (model_type : Z)
| FrequencyData.

(** The model handed to [fit]: read back with [load_model(model_loc, ...)],
    or built by [build_model(data_handler, m_params)] and compiled with
    [Adam(learning_rate=...)]. *)
Inductive ModelSource : Type :=
| Loaded (model_loc : string)
| Compiled (data_handler : DataHandler) (m_params : MParams) (learning_rate : Q).

(** The callbacks [train_model] creates; [G] is the type of the GUI object. *)
Inductive Callback (G : Type) : Type :=
| TerminateOnNaN
| LearningRateScheduler (schedule : Z -> Q -> Q)
| ModelCheckpoint (filepath monitor : string) (verbose : Z) (save_best_only : bool)
    (mode : string)
| GuiCallBack (total_epoch : Z) (gui : G) (batch_len : Z).
Arguments TerminateOnNaN {G}.
Arguments LearningRateScheduler {G} schedule.
Arguments ModelCheckpoint {G} filepath monitor verbose save_best_only mode.
Arguments GuiCallBack {G} total_epoch gui batch_len.

(** What one call of [train_model] does to the outside: the type it sets on
    the harmonic data set, the lines it prints, the directory it creates,
    and the arguments of [model.fit]. *)
Record TrainRun (G : Type) := {
  set_type_call : Z;
  printed : list string;
  made_dir : option string;
  fit_model : ModelSource;
  fit_data : DataHandler;
  fit_epochs : Z;
  fit_callbacks : list (Callback G)
}.
Arguments set_type_call {G} _.
Arguments printed {G} _.
Arguments made_dir {G} _.
Arguments fit_model {G} _.
Arguments fit_data {G} _.
Arguments fit_epochs {G} _.
Arguments fit_callbacks {G} _.

(** The newline of the two messages. *)
Definition newline : string := String (Ascii.ascii_of_nat 10) EmptyString.

(** [train_model(model_type, load, epochs)]. [isdir] tells which directories
    exist; [harmonic_len t] is [harmonic_data_set.__len__()] after
    [set_type(t)] and [frequency_len] is [frequency_data_set.__len__()]. *)
Definition train_model {G : Type} (env : Env) (isdir : string -> bool)
    (harmonic_len : Z -> Z) (frequency_len : Z) (model_path : string)
    (self : SingingModel) (train_gui : option G)
    (model_type : Z) (load : bool) (epochs_arg : Z) : TrainRun G :=
  let data_handler := HarmonicData model_type in
  let batch_len := harmonic_len model_type in
  let '(data_handler, batch_len) :=
    if model_type =? 2 then (FrequencyData, frequency_len)
    else (data_handler, batch_len) in
  let '(m_params, model_loc) :=
    if model_type =? 0 then (h_parser self, (model_path ++ "/harmonic_model.h5")%string)
    else if model_type =? 1 then (a_parser self, (model_path ++ "/aperiodic_model.h5")%string)
    else (f_parser self, (model_path ++ "/frequency_model.h5")%string) in
  let epochs_arg := if epochs_arg =? 0 then epochs m_params else epochs_arg in
  let not_found := load && negb (isfile env model_loc) in
  let printed_missing :=
    if not_found
    then [("Cannot find model :" ++ model_loc ++ newline ++ " Creating new model...")%string]
    else [] in
  let load := if not_found then false else load in
  let '(model, printed_loaded) :=
    if load
    then (Loaded model_loc,
          [("Successfully loaded :" ++ model_loc ++ newline ++ " Continuing training...")%string])
    else (Compiled data_handler m_params (learn_rate m_params), []) in
  let made := if negb (isdir model_path) then Some model_path else None in
  let callback_list :=
    [TerminateOnNaN; LearningRateScheduler lr_scheduler;
     ModelCheckpoint model_loc "loss" 1 true "min"] in
  let callback_list :=
    match train_gui with
    | Some gui => callback_list ++ [GuiCallBack epochs_arg gui batch_len]
    | None => callback_list
    end in
  {| set_type_call := model_type;
     printed := printed_missing ++ printed_loaded;
     made_dir := made;
     fit_model := model;
     fit_data := data_handler;
     fit_epochs := epochs_arg;
     fit_callbacks := callback_list |}.

(** The file the [ModelCheckpoint] callback of a run writes to. *)
Definition checkpoint_file {G : Type} (run : TrainRun G) : option string :=
  match
    filter (fun c => match c with ModelCheckpoint _ _ _ _ _ => true | _ => false end)
      (fit_callbacks run)
  with
  | ModelCheckpoint filepath _ _ _ _ :: _ => Some filepath
  | _ => None
  end.


(** ** Rows and widgets *)

(** Every row of an array has [w] columns. *)
Definition row_width (w : nat) (a : Array) : Prop :=
  Forall (fun r : Row => List.length r = w) a.

(** The widgets of the other two variants: those [inference] on
    [model_type] has no business with. *)
Definition other_widgets (model_type : Z) (g : GuiIds) : (Z * string) * (Z * string) :=
  if model_type =? 0 then
    ((a_progress_bar g, a_progress_value g), (f_progress_bar g, f_progress_value g))
  else if model_type =? 1 then
    ((s_progress_bar g, s_progress_value g), (f_progress_bar g, f_progress_value g))
  else
    ((s_progress_bar g, s_progress_value g), (a_progress_bar g, a_progress_value g)).

(** [progress_status.text] of the variant. *)
Definition status_text (model_type : Z) (g : GuiIds) : string :=
  if model_type =? 0 then s_progress_value g
  else if model_type =? 1 then a_progress_value g
  else f_progress_value g.

(* ===================================================================== *)
(** * Part II. Theorems                                                    *)
(* ===================================================================== *)

(** ** Python helpers *)

Lemma range_nat_succ (n : nat) :
  range (Z.of_nat (S n)) = range (Z.of_nat n) ++ [Z.of_nat n].
Proof.
  unfold range. rewrite !Nat2Z.id, seq_S, map_app. reflexivity.
Qed.

Lemma range_split_last (n : Z) :
  1 <= n -> range n = range (n - 1) ++ [n - 1].
Proof.
  intros Hn.
  replace n with (Z.of_nat (S (Z.to_nat (n - 1)))) at 1 by lia.
  rewrite range_nat_succ. rewrite Z2Nat.id by lia. reflexivity.
Qed.

Lemma range_nonpos (n : Z) : n <= 0 -> range n = [].
Proof.
  intros Hn. unfold range. replace (Z.to_nat n) with 0%nat by lia. reflexivity.
Qed.

Lemma in_range (n i : Z) : In i (range n) <-> 0 <= i < n.
Proof.
  unfold range. rewrite in_map_iff. split.
  - intros [k [<- Hk]]. apply in_seq in Hk. lia.
  - intros Hi. exists (Z.to_nat i). split; [lia|]. apply in_seq. lia.
Qed.

Lemma Zsum_app (l1 l2 : list Z) : Zsum (l1 ++ l2) = Zsum l1 + Zsum l2.
Proof.
  induction l1 as [|x l1 IH]; simpl; [reflexivity|]. rewrite IH. lia.
Qed.

(** ** The level loop *)

(** Running [n] levels from [(rf, a)] adds [a * (2^n - 1)] and leaves
    [add_scope] at [a * 2^n]. *)
Lemma rf_level_loop (n : nat) (rf a : Z) :
  fold_left rf_level_step (range (Z.of_nat n)) (rf, a)
  = (rf + a * (2 ^ Z.of_nat n - 1), a * 2 ^ Z.of_nat n).
Proof.
  induction n as [|n IH].
  - simpl. f_equal; lia.
  - rewrite range_nat_succ, fold_left_app, IH.
    rewrite Nat2Z.inj_succ, Z.pow_succ_r by lia.
    cbn [fold_left rf_level_step]. f_equal; lia.
Qed.

Lemma rf_level_loop_Z (n rf a : Z) :
  0 <= n ->
  fst (fold_left rf_level_step (range n) (rf, a)) = rf + a * (2 ^ n - 1).
Proof.
  intros Hn. rewrite <- (Z2Nat.id n) by lia. rewrite rf_level_loop. reflexivity.
Qed.

(** The same count, as the sum of the per-layer contributions. *)
Lemma level_sum_closed (n : nat) (a : Z) :
  Zsum (map (fun j => a * spec_dilation j) (range (Z.of_nat n)))
  = a * (2 ^ Z.of_nat n - 1).
Proof.
  induction n as [|n IH].
  - simpl. lia.
  - rewrite range_nat_succ, map_app, Zsum_app, IH.
    rewrite Nat2Z.inj_succ, Z.pow_succ_r by lia.
    cbn [map Zsum fold_right]. unfold spec_dilation. lia.
Qed.

Lemma level_sum_closed_Z (n a : Z) :
  0 <= n ->
  Zsum (map (fun j => a * spec_dilation j) (range n)) = a * (2 ^ n - 1).
Proof.
  intros Hn. rewrite <- (Z2Nat.id n) by lia. apply level_sum_closed.
Qed.

(** ** The block loop *)

(** The loop over blocks adds, block by block, the per-layer contributions
    that the specification sums; no assumption on the hyperparameters. *)
Lemma rf_block_loop (m_params : MParams) (l : list Z) (rf : Z) :
  fold_left (rf_block_step m_params) l rf
  = rf + Zsum (map (fun b =>
            Zsum (map (fun j => (kernel m_params - 1) * spec_dilation j)
                    (range (spec_levels_in_block m_params b)))) l).
Proof.
  revert rf. induction l as [|b l IH]; intros rf.
  - simpl. lia.
  - cbn [fold_left map Zsum fold_right]. rewrite IH. fold (Zsum).
    unfold rf_block_step, spec_levels_in_block.
    set (n := if b =? blocks m_params - 1 then levels m_params - 1 else levels m_params).
    destruct (Z_le_gt_dec 0 n) as [Hn|Hn].
    + rewrite rf_level_loop_Z, level_sum_closed_Z by exact Hn.
      unfold Zsum. lia.
    + rewrite (range_nonpos n) by lia. simpl. unfold Zsum. lia.
Qed.

Lemma receptive_field_of_spec (m_params : MParams) :
  receptive_field_of m_params = spec_receptive_field m_params.
Proof.
  unfold receptive_field_of, spec_receptive_field. rewrite rf_block_loop. lia.
Qed.

(** ** The layers of build_model *)

(** The level loop of [build_model] appends one layer per level, the
    dilation doubling from the value it starts with. *)
Lemma build_level_loop (m_params : MParams) (i : Z) (n : nat)
    (layers : list DilatedConv) (d : Z) :
  fold_left (build_level_step m_params i) (range (Z.of_nat n)) (layers, d)
  = (layers ++ map (fun j => {| conv_block := i; conv_level := j;
                                conv_filters := dil_chan m_params * 2;
                                conv_kernel_size := kernel m_params;
                                conv_dilation_rate := d * 2 ^ j |})
                 (range (Z.of_nat n)),
     d * 2 ^ Z.of_nat n).
Proof.
  induction n as [|n IH].
  - simpl. rewrite app_nil_r. f_equal. lia.
  - rewrite range_nat_succ, fold_left_app, IH, map_app, app_assoc.
    rewrite Nat2Z.inj_succ, Z.pow_succ_r by lia.
    cbn [fold_left build_level_step map]. f_equal. lia.
Qed.

(** One block: dilation 1 at its first level, 2^j at level j. *)
Lemma build_block_step_layers (m_params : MParams) (layers : list DilatedConv) (b : Z) :
  build_block_step m_params layers b
  = layers ++ map (fun j => {| conv_block := b; conv_level := j;
                               conv_filters := dil_chan m_params * 2;
                               conv_kernel_size := kernel m_params;
                               conv_dilation_rate := spec_dilation j |})
                (range (spec_levels_in_block m_params b)).
Proof.
  unfold build_block_step, spec_levels_in_block.
  set (n := if b =? blocks m_params - 1 then levels m_params - 1 else levels m_params).
  destruct (Z_le_gt_dec 0 n) as [Hn|Hn].
  - rewrite <- (Z2Nat.id n) by lia. rewrite build_level_loop. cbn [fst].
    f_equal. apply map_ext. intros j. unfold spec_dilation. f_equal. lia.
  - rewrite (range_nonpos n) by lia. simpl. rewrite app_nil_r. reflexivity.
Qed.

(** The whole stack: block after block, each restarting at dilation 1, the
    final block with one level fewer. *)
Lemma build_model_dilated_layers (m_params : MParams) :
  build_model_dilated m_params
  = flat_map (fun b =>
      map (fun j => {| conv_block := b; conv_level := j;
                       conv_filters := dil_chan m_params * 2;
                       conv_kernel_size := kernel m_params;
                       conv_dilation_rate := spec_dilation j |})
        (range (spec_levels_in_block m_params b)))
      (range (blocks m_params)).
Proof.
  unfold build_model_dilated.
  change (flat_map ?f ?l) with ([] ++ flat_map f l).
  generalize (@nil DilatedConv) as layers.
  induction (range (blocks m_params)) as [|b l IH]; intros layers.
  - simpl. rewrite app_nil_r. reflexivity.
  - cbn [fold_left flat_map]. rewrite IH, build_block_step_layers, <- app_assoc.
    reflexivity.
Qed.

(** Summed over the layers built, (kernel - 1) * dilation is the sum the
    specification takes over blocks and levels. *)
Lemma build_block_loop_scope (m_params : MParams) (l : list Z) (layers : list DilatedConv) :
  Zsum (map (fun c => (conv_kernel_size c - 1) * conv_dilation_rate c)
          (fold_left (build_block_step m_params) l layers))
  = Zsum (map (fun c => (conv_kernel_size c - 1) * conv_dilation_rate c) layers)
    + Zsum (map (fun b =>
            Zsum (map (fun j => (kernel m_params - 1) * spec_dilation j)
                    (range (spec_levels_in_block m_params b)))) l).
Proof.
  revert layers. induction l as [|b l IH]; intros layers.
  - simpl. lia.
  - cbn [fold_left]. rewrite IH, build_block_step_layers, map_app, Zsum_app, map_map.
    cbn [map Zsum fold_right conv_kernel_size conv_dilation_rate]. fold Zsum.
    unfold Zsum. lia.
Qed.

(** ** Closed form on valid hyperparameters *)

Lemma Zsum_map_const (f : Z -> Z) (c : Z) (l : list Z) :
  (forall b, In b l -> f b = c) -> Zsum (map f l) = Z.of_nat (List.length l) * c.
Proof.
  induction l as [|b l IH]; intros Hf.
  - reflexivity.
  - change (f b + Zsum (map f l) = Z.of_nat (S (List.length l)) * c).
    rewrite IH by (intros; apply Hf; right; assumption).
    rewrite (Hf b) by (left; reflexivity). lia.
Qed.

Lemma length_range (n : Z) : List.length (range n) = Z.to_nat n.
Proof. unfold range. rewrite length_map, length_seq. reflexivity. Qed.

Lemma receptive_field_closed (m_params : MParams) :
  1 <= blocks m_params -> 1 <= levels m_params ->
  receptive_field_of m_params
  = init_kernel m_params
    + (kernel m_params - 1) * total_dilation (blocks m_params) (levels m_params).
Proof.
  intros Hb Hl. rewrite receptive_field_of_spec. unfold spec_receptive_field.
  rewrite (range_split_last (blocks m_params)) by exact Hb.
  rewrite map_app, Zsum_app.
  rewrite (Zsum_map_const _ ((kernel m_params - 1) * (2 ^ levels m_params - 1))).
  - rewrite length_range. cbn [map Zsum fold_right].
    unfold spec_levels_in_block at 1. rewrite Z.eqb_refl.
    rewrite level_sum_closed_Z by lia. unfold total_dilation.
    rewrite Z2Nat.id by lia. ring.
  - intros b Hb'. apply in_range in Hb'. unfold spec_levels_in_block.
    replace (b =? blocks m_params - 1) with false by (symmetry; apply Z.eqb_neq; lia).
    apply level_sum_closed_Z. lia.
Qed.

Lemma total_dilation_nonneg (bl lv : Z) :
  1 <= bl -> 1 <= lv -> 0 <= total_dilation bl lv.
Proof.
  intros Hb Hl. unfold total_dilation.
  assert (1 <= 2 ^ lv) by (apply Z.pow_le_mono_r with (b := 0) (a := 2); lia).
  assert (1 <= 2 ^ (lv - 1)) by (apply Z.pow_le_mono_r with (b := 0) (a := 2); lia).
  nia.
Qed.

Lemma total_dilation_mono (bl lv bl' lv' : Z) :
  1 <= bl <= bl' -> 1 <= lv <= lv' ->
  total_dilation bl lv <= total_dilation bl' lv'.
Proof.
  intros Hb Hl. unfold total_dilation.
  assert (1 <= 2 ^ lv) by (apply Z.pow_le_mono_r with (b := 0) (a := 2); lia).
  assert (2 ^ lv <= 2 ^ lv') by (apply Z.pow_le_mono_r; lia).
  assert (2 ^ (lv - 1) <= 2 ^ (lv' - 1)) by (apply Z.pow_le_mono_r; lia).
  nia.
Qed.

Lemma receptive_field_layers (m_params : MParams) :
  receptive_field_of m_params
  = init_kernel m_params - 1 + 1
    + Zsum (map (fun c => (conv_kernel_size c - 1) * conv_dilation_rate c)
              (build_model_dilated m_params)).
Proof.
  unfold build_model_dilated. rewrite build_block_loop_scope.
  rewrite receptive_field_of_spec. unfold spec_receptive_field. simpl. lia.
Qed.

Lemma receptive_field_fields (p p' : MParams) :
  levels p = levels p' -> blocks p = blocks p' ->
  kernel p = kernel p' -> init_kernel p = init_kernel p' ->
  receptive_field_of p = receptive_field_of p'.
Proof.
  intros Hl Hb Hk Hi. rewrite !receptive_field_of_spec.
  unfold spec_receptive_field, spec_levels_in_block.
  rewrite Hl, Hb, Hk, Hi. reflexivity.
Qed.

(** ** Receptive field: the claims *)

(** C1. On every valid hyperparameter set, [get_receptive_field] returns
    init_kernel - 1 + 1 + the sum over the dilated layers of
    (kernel - 1) * dilation, the dilation starting at 1 in each block and
    doubling per level, the final block having one level fewer; the sum is
    the same when taken over the layers that [build_model] stacks; and for
    levels = 2, blocks = 2, kernel = 2, init_kernel = 1 the result is 5. *)
Theorem get_receptive_field_formula (self : SingingModel) (model_type : Z) :
  let m_params := select_params self model_type in
  valid_params m_params ->
  get_receptive_field self model_type = spec_receptive_field m_params
  /\ get_receptive_field self model_type
     = init_kernel m_params - 1 + 1
       + Zsum (map (fun c => (conv_kernel_size c - 1) * conv_dilation_rate c)
                 (build_model_dilated m_params))
  /\ (levels m_params = 2 -> blocks m_params = 2 ->
      kernel m_params = 2 -> init_kernel m_params = 1 ->
      get_receptive_field self model_type = 5).
Proof.
  intros m_params _. unfold get_receptive_field. fold m_params.
  split; [apply receptive_field_of_spec|].
  split; [apply receptive_field_layers|].
  intros Hl Hb Hk Hi.
  rewrite (receptive_field_fields m_params (arch 2 2 2 1)) by assumption.
  reflexivity.
Qed.

Lemma get_receptive_field_formula_witness :
  valid_params (arch 2 2 2 1)
  /\ get_receptive_field (uniform_model (arch 2 2 2 1)) 0 = 5.
Proof.
  assert (Hv : valid_params (arch 2 2 2 1)) by (unfold valid_params; simpl; lia).
  split; [exact Hv|].
  exact (proj2 (proj2 (get_receptive_field_formula (uniform_model (arch 2 2 2 1)) 0 Hv))
           eq_refl eq_refl eq_refl eq_refl).
Defined.

(** C8. [get_receptive_field] is a function of the four architecture sizes
    alone, and on valid hyperparameter sets it is non-decreasing in kernel
    size, level count and block count (the initial kernel held fixed). *)
Theorem get_receptive_field_monotone (self self' : SingingModel) (model_type model_type' : Z) :
  let p := select_params self model_type in
  let p' := select_params self' model_type' in
  valid_params p -> valid_params p' ->
  init_kernel p = init_kernel p' ->
  (kernel p = kernel p' -> levels p = levels p' -> blocks p = blocks p' ->
   get_receptive_field self model_type = get_receptive_field self' model_type')
  /\ (kernel p <= kernel p' -> levels p <= levels p' -> blocks p <= blocks p' ->
      get_receptive_field self model_type <= get_receptive_field self' model_type').
Proof.
  intros p p' (Hb & Hl & Hk & Hi) (Hb' & Hl' & Hk' & Hi') Hik.
  unfold get_receptive_field. fold p p'. split.
  - intros Ek El Eb. apply receptive_field_fields; assumption.
  - intros Lk Ll Lb. rewrite !receptive_field_closed by assumption.
    pose proof (total_dilation_nonneg (blocks p) (levels p) Hb Hl) as H0.
    pose proof (total_dilation_mono (blocks p) (levels p) (blocks p') (levels p')
                  (conj Hb Lb) (conj Hl Ll)) as Hm.
    rewrite Hik. apply Z.add_le_mono_l.
    apply Z.mul_le_mono_nonneg; lia.
Qed.

Lemma get_receptive_field_monotone_witness :
  get_receptive_field (uniform_model (arch 2 2 2 1)) 0
  <= get_receptive_field (uniform_model (arch 3 4 5 1)) 1.
Proof.
  refine (proj2 (get_receptive_field_monotone
                   (uniform_model (arch 2 2 2 1)) (uniform_model (arch 3 4 5 1)) 0 1
                   _ _ _) _ _ _);
    unfold valid_params; simpl; lia.
Defined.

(** ** Slices *)

Lemma slice_length {A : Type} (a : list A) (start end_ : Z) :
  0 <= start <= end_ -> end_ <= Z.of_nat (List.length a) ->
  List.length (slice a start end_) = Z.to_nat (end_ - start).
Proof.
  intros H Hlen. unfold slice, slice_bound.
  replace (start <? 0) with false by (symmetry; apply Z.ltb_ge; lia).
  replace (end_ <? 0) with false by (symmetry; apply Z.ltb_ge; lia).
  rewrite !Z.min_l by lia.
  rewrite length_firstn, length_skipn. lia.
Qed.



(** ** build_model: where a kernel size is refused *)




Section KernelSizeRefused.

Variable accepts : Keras.
Variable m_params : MParams.

Hypothesis kernel_size_checked :
  forall layers filters kernel_size padding dilation_rate name,
    kernel_size <= 0 ->
    accepts layers (keras.Conv1D filters kernel_size padding dilation_rate name) = false.







End KernelSizeRefused.



(** With sizes that are positive the same Keras lets the build through:
    the 42 layers of two blocks of two levels. *)
Example build_model_valid :
  option_map (@List.length keras.Layer)
    (build_model checks_kernel_size 60 30 (arch 2 2 2 1)) = Some 42%nat.
Proof. reflexivity. Qed.

(** ** Learning-rate schedule *)













(** ** The selection test in exact arithmetic *)

Section Sampling.

Variable mp : MixtureParams.
Variable random : Tensor.
Variable ix : Index.

(** The cumulative bound below component [k], one weight at a time. *)
Lemma mask_set_of_succ (k : nat) :
  mask_set_of mp (S k) = k_back.add (mask_set_of mp k) (weights mp k).
Proof.
  unfold mask_set_of. rewrite seq_S, fold_left_app. reflexivity.
Qed.

Lemma mask_set_of_zero : mask_set_of mp 0 ix = 0%Q.
Proof. reflexivity. Qed.

(** The upper bound of component [k] is the lower bound of component
    [k + 1]: the intervals leave no gap and do not overlap. *)
Lemma upper_bound_is_next_lower (k : nat) :
  (k_back.add (weights mp k) (mask_set_of mp k) ix == mask_set_of mp (S k) ix)%Q.
Proof.
  rewrite mask_set_of_succ. unfold k_back.add. ring.
Qed.




End Sampling.



(** ** float64 arithmetic *)

(** Comparisons of the specification floats: a comparison is undefined
    exactly when a NaN takes part, swapping the sides mirrors the result,
    and [<=] is transitive. *)
Lemma SFcompare_swap (x y : spec_float) :
  SFcompare y x = option_map CompOpp (SFcompare x y).
Proof.
  destruct x as [sx|sx| |sx mx ex], y as [sy|sy| |sy my ey];
    try destruct sx; try destruct sy; try reflexivity; cbn [SFcompare option_map];
    change (Pos.compare_cont Eq ?a ?b) with (Pos.compare a b);
    rewrite (Z.compare_antisym ex ey), (Pos.compare_antisym mx my);
    destruct (ex ?= ey); cbn; try reflexivity;
    destruct (mx ?= my)%positive; reflexivity.
Qed.

Lemma SFcompare_defined (x y : spec_float) :
  x <> S754_nan -> y <> S754_nan -> exists c, SFcompare x y = Some c.
Proof.
  destruct x, y; cbn; intros Hx Hy; try contradiction; eexists; reflexivity.
Qed.

Lemma SFleb_trans (x y z : spec_float) :
  SFleb x y = true -> SFleb y z = true -> SFleb x z = true.
Proof.
  unfold SFleb.
  destruct x as [sx|sx| |sx mx ex], y as [sy|sy| |sy my ey], z as [sz|sz| |sz mz ez];
    try destruct sx; try destruct sy; try destruct sz;
    cbn [SFcompare]; try reflexivity; try discriminate;
    change (Pos.compare_cont Eq ?a ?b) with (Pos.compare a b);
    destruct (Z.compare_spec ex ey); try discriminate;
    destruct (Z.compare_spec ey ez); try discriminate;
    destruct (Z.compare_spec ex ez); try reflexivity; try lia;
    destruct (Pos.compare_spec mx my); cbn; try discriminate;
    destruct (Pos.compare_spec my mz); cbn; try discriminate;
    destruct (Pos.compare_spec mx mz); cbn; try reflexivity; try discriminate; intros; lia.
Qed.

(** The same facts on float64 values. *)
Lemma f64_leb_trans (x y z : float) :
  PrimFloat.leb x y = true -> PrimFloat.leb y z = true -> PrimFloat.leb x z = true.
Proof. rewrite !leb_spec. apply SFleb_trans. Qed.

Lemma f64_leb_not_nan (x y : float) :
  PrimFloat.leb x y = true -> Prim2SF x <> S754_nan /\ Prim2SF y <> S754_nan.
Proof.
  rewrite leb_spec. unfold SFleb.
  destruct (Prim2SF x), (Prim2SF y); cbn; intros H; try discriminate H;
    split; discriminate.
Qed.

(** Between two numbers, [x < y] is the negation of [y <= x]. *)
Lemma f64_ltb_negb_leb (x y : float) :
  Prim2SF x <> S754_nan -> Prim2SF y <> S754_nan ->
  PrimFloat.ltb x y = negb (PrimFloat.leb y x).
Proof.
  intros Hx Hy. rewrite ltb_spec, leb_spec. unfold SFltb, SFleb.
  rewrite (SFcompare_swap (Prim2SF x) (Prim2SF y)).
  destruct (SFcompare_defined _ _ Hx Hy) as [c ->]. destruct c; reflexivity.
Qed.

Lemma f64_leb_ltb_false (x y : float) :
  PrimFloat.leb y x = true -> PrimFloat.ltb x y = false.
Proof.
  intros H. destruct (f64_leb_not_nan _ _ H) as [Hy Hx].
  rewrite f64_ltb_negb_leb, H by assumption. reflexivity.
Qed.

(** Float64 addition is commutative, bit for bit. *)
Lemma SFadd_comm (x y : spec_float) : SF64add x y = SF64add y x.
Proof.
  unfold SF64add.
  destruct x as [sx|sx| |sx mx ex], y as [sy|sy| |sy my ey];
    try destruct sx; try destruct sy; try reflexivity;
    cbn [SFadd]; rewrite (Z.min_comm ey ex), Z.add_comm; reflexivity.
Qed.

Lemma f64_add_comm (x y : float) : PrimFloat.add x y = PrimFloat.add y x.
Proof. apply Prim2SF_inj. rewrite !add_spec. apply SFadd_comm. Qed.

Lemma f64_is_zero_spec (x : float) :
  PrimFloat.is_zero x = match Prim2SF x with S754_zero _ => true | _ => false end.
Proof.
  unfold PrimFloat.is_zero. rewrite eqb_spec.
  change (Prim2SF PrimFloat.zero) with (S754_zero false).
  destruct (Prim2SF x) as [s|s| |s m e]; try destruct s; reflexivity.
Qed.

(** 0.0 * d is a zero for a finite d (and a NaN for the others). *)
Lemma f64_mul_zero_finite (d : float) :
  F64.finite d = true -> exists s, Prim2SF (PrimFloat.mul PrimFloat.zero d) = S754_zero s.
Proof.
  unfold F64.finite. intros H. rewrite mul_spec.
  change (Prim2SF PrimFloat.zero) with (S754_zero false).
  destruct (Prim2SF d) as [s|s| |s m e]; try discriminate; eexists; reflexivity.
Qed.

Lemma f64_mul_zero_not_finite (d : float) :
  F64.finite d = false -> Prim2SF (PrimFloat.mul PrimFloat.zero d) = S754_nan.
Proof.
  unfold F64.finite. intros H. rewrite mul_spec.
  change (Prim2SF PrimFloat.zero) with (S754_zero false).
  destruct (Prim2SF d) as [s|s| |s m e]; try discriminate; reflexivity.
Qed.

(** 1.0 * d is d: the product of the mantissas is the mantissa of d
    shifted by 52 bits, which rounding shifts back. *)
Lemma f64_mul_one_l (d : float) : PrimFloat.mul PrimFloat.one d = d.
Proof.
  apply Prim2SF_inj. rewrite mul_spec.
  change (Prim2SF PrimFloat.one) with (S754_finite false 4503599627370496 (-52)).
  pose proof (Prim2SF_valid d) as Hv.
  destruct (Prim2SF d) as [s|s| |s m e]; try reflexivity.
  unfold SF64mul. cbn [SFmul xorb].
  cbn [valid_binary] in Hv. unfold bounded, canonical_mantissa in Hv.
  apply andb_prop in Hv. destruct Hv as [Hc Hb].
  apply Z.eqb_eq in Hc.
  unfold binary_round_aux, shr_fexp.
  cbn [Pos.mul Zdigits2 digits2_pos shr_record_of_loc].
  rewrite !Pos2Z.inj_succ.
  match goal with
  | |- context [fexp prec emax ?a] =>
      replace a with (Z.pos (digits2_pos m) + e) by lia
  end.
  rewrite Hc. replace (e - (-52 + e)) with 52 by lia.
  cbn [shr iter_pos shr_1 orb].
  replace (-52 + e + 52) with e by lia.
  cbn [shr_m loc_of_shr_record round_nearest_even Zdigits2].
  rewrite Hc, Z.sub_diag. cbn [shr shr_m].
  rewrite Hb. reflexivity.
Qed.

(** 0.0 + z is 0.0 for a zero z of either sign. *)
Lemma f64_add_zero_zero (z : float) (s : bool) :
  Prim2SF z = S754_zero s -> PrimFloat.add PrimFloat.zero z = PrimFloat.zero.
Proof.
  intros H. apply Prim2SF_inj. rewrite add_spec, H.
  change (Prim2SF PrimFloat.zero) with (S754_zero false). destruct s; reflexivity.
Qed.

(** 0.0 + d is d, except that -0.0 becomes 0.0. *)
Lemma f64_add_zero_l (d : float) :
  PrimFloat.add PrimFloat.zero d = if PrimFloat.is_zero d then PrimFloat.zero else d.
Proof.
  rewrite f64_is_zero_spec. destruct (Prim2SF d) as [s|s| |s m e] eqn:E;
    [apply (f64_add_zero_zero d s E) | | |];
    apply Prim2SF_inj; rewrite add_spec, E; reflexivity.
Qed.

(** x + z is x for a zero z, unless x is -0.0. *)
Lemma f64_add_zero_r (x z : float) (s : bool) :
  Prim2SF x <> S754_zero true -> Prim2SF z = S754_zero s -> PrimFloat.add x z = x.
Proof.
  intros Hx Hz. apply Prim2SF_inj. rewrite add_spec, Hz.
  destruct (Prim2SF x) as [sx|sx| |sx mx ex]; try reflexivity.
  destruct sx; [contradiction Hx; reflexivity|]. destruct s; reflexivity.
Qed.

Lemma selected_not_neg_zero (d : float) :
  Prim2SF (if PrimFloat.is_zero d then PrimFloat.zero else d) <> S754_zero true.
Proof.
  rewrite f64_is_zero_spec. destruct (Prim2SF d) eqn:E; [discriminate | | |]; rewrite E; discriminate.
Qed.

(** The three ways a term of the masked sum acts on the sum so far. *)
Lemma f64_add_zero_masked_out (d : float) :
  F64.finite d = true ->
  PrimFloat.add PrimFloat.zero (PrimFloat.mul PrimFloat.zero d) = PrimFloat.zero.
Proof.
  intros H. destruct (f64_mul_zero_finite d H) as [s Hs]. apply (f64_add_zero_zero _ s Hs).
Qed.

Lemma f64_add_zero_selected (d : float) :
  PrimFloat.add PrimFloat.zero (PrimFloat.mul PrimFloat.one d)
  = if PrimFloat.is_zero d then PrimFloat.zero else d.
Proof. rewrite f64_mul_one_l. apply f64_add_zero_l. Qed.

Lemma f64_add_selected_masked_out (r d : float) :
  Prim2SF r <> S754_zero true -> F64.finite d = true ->
  PrimFloat.add r (PrimFloat.mul PrimFloat.zero d) = r.
Proof.
  intros Hr H. destruct (f64_mul_zero_finite d H) as [s Hs]. apply (f64_add_zero_r r _ s Hr Hs).
Qed.

(** ** Rounding of a sum of two non-negative floats *)

Lemma digits2_pos_size (m : positive) : digits2_pos m = Pos.size m.
Proof. induction m; cbn; congruence. Qed.

(** The number of digits of a mantissa brackets it between two powers
    of 2. *)
Lemma digits2_bounds (m : positive) :
  2 ^ (Z.pos (digits2_pos m) - 1) <= Z.pos m < 2 ^ Z.pos (digits2_pos m).
Proof.
  rewrite digits2_pos_size. split.
  - pose proof (Pos.size_le m) as H.
    assert (H' : 2 ^ Z.pos (Pos.size m) <= 2 * Z.pos m).
    { change (2 * Z.pos m) with (Z.pos m~0). rewrite <- Pos2Z.inj_pow. 
      apply Pos2Z.pos_le_pos. exact H. }
    replace (Z.pos (Pos.size m)) with (Z.succ (Z.pos (Pos.size m) - 1)) in H' by lia.
    rewrite Z.pow_succ_r in H' by lia. lia.
  - pose proof (Pos.size_gt m) as H. rewrite <- Pos2Z.inj_pow.
    apply Pos2Z.pos_lt_pos. exact H.
Qed.

Lemma shr_1_m (mrs : shr_record) :
  0 <= shr_m mrs -> shr_m (shr_1 mrs) = shr_m mrs / 2.
Proof.
  destruct mrs as [m r s]. cbn [shr_m]. intros Hm.
  destruct m as [|p|p]; [reflexivity | | lia].
  destruct p as [p|p|]; cbn [shr_1 shr_m].
  - rewrite Pos2Z.inj_xI. apply Z.div_unique with 1; lia.
  - rewrite Pos2Z.inj_xO. apply Z.div_unique with 0; lia.
  - reflexivity.
Qed.

(** Shifting a record right by [p] bits divides its mantissa by 2^p. *)
Lemma iter_shr_1_m (p : positive) (mrs : shr_record) :
  0 <= shr_m mrs -> shr_m (iter_pos shr_1 p mrs) = shr_m mrs / 2 ^ Z.pos p.
Proof.
  revert mrs. induction p as [p IH|p IH|]; intros mrs Hm; cbn [iter_pos].
  - assert (H1 : 0 <= shr_m (shr_1 mrs)) by (rewrite shr_1_m by exact Hm; apply Z.div_pos; lia).
    assert (H2 : 0 <= shr_m (iter_pos shr_1 p (shr_1 mrs)))
      by (rewrite IH by exact H1; apply Z.div_pos; [exact H1 | apply Z.pow_pos_nonneg; lia]).
    rewrite IH, IH, shr_1_m by assumption.
    rewrite !Z.div_div by (try apply Z.pow_pos_nonneg; lia).
    f_equal. replace (Z.pos p~1) with (1 + Z.pos p + Z.pos p) by lia.
    rewrite !Z.pow_add_r by lia. change (2 ^ 1) with 2. ring.
  - assert (H2 : 0 <= shr_m (iter_pos shr_1 p mrs))
      by (rewrite IH by exact Hm; apply Z.div_pos; [exact Hm | apply Z.pow_pos_nonneg; lia]).
    rewrite IH, IH by assumption.
    rewrite !Z.div_div by (try apply Z.pow_pos_nonneg; lia).
    f_equal. replace (Z.pos p~0) with (Z.pos p + Z.pos p) by lia.
    rewrite !Z.pow_add_r by lia. ring.
  - apply shr_1_m. exact Hm.
Qed.

(** [shr] by any amount: the exponent does not go down, and the mantissa
    is divided by the power of 2 it went up by. *)
Lemma shr_spec (mrs : shr_record) (e n : Z) :
  0 <= shr_m mrs ->
  let '(mrs', e') := shr mrs e n in
  e' = e + Z.max 0 n /\ shr_m mrs' = shr_m mrs / 2 ^ Z.max 0 n.
Proof.
  intros Hm. unfold shr. destruct n as [|p|p].
  - split; [lia|]. cbn. rewrite Z.div_1_r. reflexivity.
  - split; [lia|]. rewrite Z.max_r by lia. apply iter_shr_1_m. exact Hm.
  - split; [lia|]. cbn. rewrite Z.div_1_r. reflexivity.
Qed.

Lemma round_nearest_even_ge (m : Z) (l : location) : m <= round_nearest_even m l.
Proof.
  destruct l as [|c]; cbn; [lia|]. destruct c; try lia. destruct (Z.even m); lia.
Qed.

Lemma fexp_mono (a b : Z) : a <= b -> fexp prec emax a <= fexp prec emax b.
Proof. unfold fexp. lia. Qed.

Lemma fexp_ge_emin (a : Z) : -1074 <= fexp prec emax a.
Proof. unfold fexp, emin, prec, emax. lia. Qed.

Lemma shr_record_of_loc_m (m : Z) (l : location) : shr_m (shr_record_of_loc m l) = m.
Proof. destruct l as [|[]]; reflexivity. Qed.

Lemma iter_xO_value (m d : positive) :
  Z.pos (Pos.iter xO m d) = Z.pos m * 2 ^ Z.pos d.
Proof.
  induction d as [|d IH] using Pos.peano_ind.
  - cbn. lia.
  - rewrite Pos.iter_succ, Pos2Z.inj_xO, IH, Pos2Z.inj_succ, Z.pow_succ_r by lia. ring.
Qed.

(** Aligning a mantissa to a lower exponent keeps the value. *)
Lemma shl_align_value (m : positive) (e e' : Z) :
  e' <= e -> Z.pos (fst (shl_align m e e')) = Z.pos m * 2 ^ (e - e').
Proof.
  intros H. unfold shl_align. destruct (e' - e) as [|p|p] eqn:E; cbn [fst].
  - replace (e - e') with 0 by lia. cbn. lia.
  - lia.
  - rewrite iter_xO_value. f_equal. f_equal. lia.
Qed.

(** Rounding a positive integer multiple of 2^ez that is at least a
    float x (canonical, exponent at least ez) gives at least x. *)
Lemma binary_round_lower (M : positive) (ez : Z) (mx : positive) (ex : Z) :
  fexp prec emax (Z.pos (digits2_pos mx) + ex) = ex ->
  ez <= ex ->
  Z.pos mx * 2 ^ (ex - ez) <= Z.pos M ->
  SFleb (S754_finite false mx ex) (binary_round prec emax false M ez) = true.
Proof.
  intros Hcan Hez Hle.
  pose proof (digits2_bounds mx) as [Hx1 Hx2]. pose proof (digits2_bounds M) as [HM1 HM2].
  set (dx := Z.pos (digits2_pos mx)) in *. set (dM := Z.pos (digits2_pos M)) in *.
  assert (Hpow : 0 < 2 ^ (ex - ez)) by (apply Z.pow_pos_nonneg; lia).
  (* the sum has at least the digits of x *)
  assert (Hd : dx + ex <= dM + ez).
  { assert (H : 2 ^ (dx - 1 + (ex - ez)) < 2 ^ dM).
    { rewrite Z.pow_add_r by (unfold dx; lia). nia. }
    apply Z.pow_lt_mono_r_iff in H; unfold dM; lia. }
  set (E := fexp prec emax (dM + ez)).
  assert (HE : ex <= E) by (rewrite <- Hcan; apply fexp_mono; exact Hd).
  assert (HEcase : E = ex \/ E = dM + ez - 53).
  { unfold E, fexp, emin, prec, emax in *. lia. }
  unfold binary_round. fold dM. fold E.
  assert (Halign : shl_align M ez E = (M, ez)).
  { unfold shl_align. destruct (E - ez) eqn:D; try reflexivity. lia. }
  rewrite Halign. unfold binary_round_aux, shr_fexp. cbn [Zdigits2]. fold dM. fold E.
  set (n := E - ez).
  pose proof (shr_spec (shr_record_of_loc (Z.pos M) loc_Exact) ez n) as H1.
  rewrite shr_record_of_loc_m in H1. specialize (H1 ltac:(lia)).
  destruct (shr (shr_record_of_loc (Z.pos M) loc_Exact) ez n) as [mrs' e'].
  destruct H1 as [He' Hm1]. rewrite Z.max_r in He', Hm1 by (unfold n; lia).
  assert (He'E : e' = E) by (unfold n in He'; lia). clear He'. rewrite He'E. clear He'E e'.
  assert (Hn : 2 ^ n <= Z.pos M).
  { destruct HEcase as [HEc|HEc].
    - unfold n. rewrite HEc. nia.
    - apply Z.le_trans with (2 ^ (dM - 1)); [|lia].
      apply Z.pow_le_mono_r; unfold n; lia. }
  assert (Hm1pos : 0 < shr_m mrs').
  { rewrite Hm1. apply Z.div_str_pos. split; [apply Z.pow_pos_nonneg; unfold n; lia | exact Hn]. }
  set (m2 := round_nearest_even (shr_m mrs') (loc_of_shr_record mrs')).
  assert (Hm2 : shr_m mrs' <= m2) by apply round_nearest_even_ge.
  set (n2 := fexp prec emax (Zdigits2 m2 + E) - E).
  pose proof (shr_spec (shr_record_of_loc m2 loc_Exact) E n2) as H2.
  rewrite shr_record_of_loc_m in H2. specialize (H2 ltac:(lia)).
  destruct (shr (shr_record_of_loc m2 loc_Exact) E n2) as [mrs'' e''].
  destruct H2 as [He'' Hm3].
  assert (Hm3pos : 0 < shr_m mrs'').
  { rewrite Hm3. destruct (Z.max_spec 0 n2) as [[Hlt ->] | [Hge ->]].
    - destruct m2 as [|p2|p2] eqn:Ep; try lia.
      pose proof (digits2_bounds p2) as [Hp1 Hp2].
      cbn [Zdigits2] in n2.
      assert (Hn2 : n2 = Z.pos (digits2_pos p2) - 53).
      { unfold n2 in *. pose proof (fexp_ge_emin (dM + ez)). fold E in H.
        unfold fexp, emin, prec, emax in *. lia. }
      apply Z.div_str_pos. split; [apply Z.pow_pos_nonneg; lia|].
      apply Z.le_trans with (2 ^ (Z.pos (digits2_pos p2) - 1)); [|lia].
      apply Z.pow_le_mono_r; lia.
    - cbn. rewrite Z.div_1_r. lia. }
  destruct (shr_m mrs'') as [|m3|m3] eqn:Em3; try lia.
  destruct (e'' <=? emax - prec); [|reflexivity].
  unfold SFleb. cbn [SFcompare].
  change (Pos.compare_cont Eq mx m3) with (Pos.compare mx m3).
  destruct (Z.compare_spec ex e'') as [Heq|Hlt|Hgt]; try reflexivity; [|lia].
  assert (Hn20 : Z.max 0 n2 = 0) by lia.
  rewrite Hn20 in Hm3. cbn in Hm3. rewrite Z.div_1_r in Hm3.
  assert (HEex : E = ex) by lia.
  assert (Hmx : Z.pos mx <= shr_m mrs').
  { rewrite Hm1. apply Z.div_le_lower_bound; [apply Z.pow_pos_nonneg; unfold n; lia|].
    unfold n. rewrite HEex. lia. }
  assert (Hfin : (mx <= m3)%positive) by (apply Pos2Z.pos_le_pos; lia).
  apply Pos.compare_le_iff in Hfin.
  destruct (mx ?= m3)%positive; try reflexivity. contradiction Hfin. reflexivity.
Qed.

(** Adding a float that is at least 0 to a float that is at least 0 does
    not give less than the latter: rounding to nearest is monotone and
    leaves a float where it is. *)
Lemma SFadd_nonneg_lower (w x : spec_float) :
  valid_binary x = true ->
  SFleb (S754_zero false) w = true -> SFleb (S754_zero false) x = true ->
  SFleb x (SF64add w x) = true.
Proof.
  intros Hvx Hw Hx. unfold SF64add.
  destruct w as [sw|sw| |sw mw ew], x as [sx|sx| |sx mx ex];
    try destruct sw; try destruct sx; try discriminate Hw; try discriminate Hx;
    try reflexivity.
  - (* zero + finite *)
    cbn [SFadd]. unfold SFleb. cbn [SFcompare].
    rewrite Z.compare_refl. change (Pos.compare_cont Eq mx mx) with (Pos.compare mx mx).
    rewrite Pos.compare_refl. reflexivity.
  - cbn [SFadd]. unfold SFleb. cbn [SFcompare].
    rewrite Z.compare_refl. change (Pos.compare_cont Eq mx mx) with (Pos.compare mx mx).
    rewrite Pos.compare_refl. reflexivity.
  - (* finite + finite *)
    cbn [SFadd cond_Zopp Z.add binary_normalize].
    cbn [valid_binary] in Hvx. unfold bounded, canonical_mantissa in Hvx.
    apply andb_prop in Hvx. destruct Hvx as [Hc _]. apply Z.eqb_eq in Hc.
    apply binary_round_lower; [exact Hc | lia |].
    rewrite Pos2Z.inj_add, (shl_align_value mx ex (Z.min ew ex)) by lia. lia.
Qed.

Lemma f64_add_nonneg_lower (w x : float) :
  PrimFloat.leb PrimFloat.zero w = true -> PrimFloat.leb PrimFloat.zero x = true ->
  PrimFloat.leb x (PrimFloat.add w x) = true.
Proof.
  rewrite !FloatAxioms.leb_spec, FloatAxioms.add_spec. change (Prim2SF PrimFloat.zero) with (S754_zero false).
  apply SFadd_nonneg_lower. apply Prim2SF_valid.
Qed.

(** ** The progress percentage *)

Lemma round_nearest_even_le (m : Z) (l : location) : round_nearest_even m l <= m + 1.
Proof.
  destruct l as [|c]; cbn; [lia|]. destruct c; try lia. destruct (Z.even m); lia.
Qed.

Lemma Zdigits2_le (m k : Z) : 0 <= k -> 0 <= m < 2 ^ k -> Zdigits2 m <= k.
Proof.
  intros Hk [H0 Hm]. destruct m as [|p|p]; cbn [Zdigits2]; [lia | | lia].
  pose proof (digits2_bounds p) as [Hp _].
  assert (H : 2 ^ (Z.pos (digits2_pos p) - 1) < 2 ^ k) by lia.
  apply Z.pow_lt_mono_r_iff in H; lia.
Qed.

Lemma Zdigits2_nonneg (m : Z) : 0 <= Zdigits2 m.
Proof. destruct m; cbn; lia. Qed.

Lemma Zdigits2_gt (m : Z) : 0 <= m -> m < 2 ^ Zdigits2 m.
Proof.
  intros H. destruct m as [|p|p]; cbn [Zdigits2]; [cbn; lia | | lia].
  apply digits2_bounds.
Qed.

(** Rounding a mantissa that is not negative gives a zero or a finite
    float, with an exponent below any bound that the exponent and the
    magnitude of the input respect. *)
Lemma binary_round_aux_bounded (s : bool) (m e : Z) (l : location) (B : Z) :
  0 <= m -> e <= B -> Zdigits2 m + e <= B + 52 -> -1074 <= B <= 971 ->
  match binary_round_aux prec emax s m e l with
  | S754_zero _ => True
  | S754_finite _ _ e'' => e'' <= B
  | _ => False
  end.
Proof.
  intros Hm He Hd HB. unfold binary_round_aux, shr_fexp.
  set (n := fexp prec emax (Zdigits2 m + e) - e).
  pose proof (shr_spec (shr_record_of_loc m l) e n) as H1.
  rewrite shr_record_of_loc_m in H1. specialize (H1 Hm).
  destruct (shr (shr_record_of_loc m l) e n) as [mrs' e1]. destruct H1 as [He1 Hm1].
  assert (Hpow1 : 0 < 2 ^ Z.max 0 n) by (apply Z.pow_pos_nonneg; lia).
  assert (Hm1pos : 0 <= shr_m mrs') by (rewrite Hm1; apply Z.div_pos; lia).
  assert (He1B : e1 <= B).
  { unfold n, fexp, emin, prec, emax in *. lia. }
  (* the magnitude after the shift *)
  assert (Hmag : shr_m mrs' < 2 ^ Z.max 0 (Zdigits2 m - Z.max 0 n)).
  { rewrite Hm1. pose proof (Zdigits2_gt m Hm) as Hg. pose proof (Zdigits2_nonneg m) as Hn0.
    destruct (Z.le_gt_cases (Z.max 0 n) (Zdigits2 m)) as [Hle|Hgt].
    - rewrite (Z.max_r 0 (Zdigits2 m - Z.max 0 n)) by lia.
      apply Z.div_lt_upper_bound; [exact Hpow1|].
      rewrite <- Z.pow_add_r by lia. replace (Z.max 0 n + (Zdigits2 m - Z.max 0 n))
        with (Zdigits2 m) by lia. exact Hg.
    - rewrite (Z.max_l 0 (Zdigits2 m - Z.max 0 n)) by lia.
      change (2 ^ 0) with 1. apply Z.div_lt_upper_bound; [exact Hpow1|].
      rewrite Z.mul_1_r. apply Z.lt_le_trans with (2 ^ Zdigits2 m); [exact Hg|].
      apply Z.pow_le_mono_r; lia. }
  set (m2 := round_nearest_even (shr_m mrs') (loc_of_shr_record mrs')).
  pose proof (round_nearest_even_ge (shr_m mrs') (loc_of_shr_record mrs')) as Hge.
  pose proof (round_nearest_even_le (shr_m mrs') (loc_of_shr_record mrs')) as Hle.
  fold m2 in Hge, Hle.
  assert (Hd2 : Zdigits2 m2 <= Z.max 0 (Zdigits2 m - Z.max 0 n) + 1).
  { apply Zdigits2_le; [lia|]. split; [lia|].
    rewrite Z.pow_add_r by lia. change (2 ^ 1) with 2. lia. }
  set (n2 := fexp prec emax (Zdigits2 m2 + e1) - e1).
  pose proof (shr_spec (shr_record_of_loc m2 loc_Exact) e1 n2) as H2.
  rewrite shr_record_of_loc_m in H2. specialize (H2 ltac:(lia)).
  destruct (shr (shr_record_of_loc m2 loc_Exact) e1 n2) as [mrs'' e2].
  destruct H2 as [He2 Hm3].
  assert (Hm3pos : 0 <= shr_m mrs'').
  { rewrite Hm3. apply Z.div_pos; [lia | apply Z.pow_pos_nonneg; lia]. }
  assert (He2B : e2 <= B).
  { unfold n2, n, fexp, emin, prec, emax in *. lia. }
  destruct (shr_m mrs'') as [|p|p]; [exact I | | lia].
  replace (e2 <=? emax - prec) with true; [exact He2B|].
  symmetry. apply Z.leb_le. unfold emax, prec. lia.
Qed.

Lemma digits2_iter_xO (p d : positive) :
  Z.pos (digits2_pos (Pos.iter xO p d)) = Z.pos (digits2_pos p) + Z.pos d.
Proof.
  induction d as [|d IH] using Pos.peano_ind.
  - cbn. lia.
  - rewrite Pos.iter_succ. cbn [digits2_pos]. rewrite Pos2Z.inj_succ, IH. lia.
Qed.

(** An int from 1 to 2^53 - 1 becomes a float with a full mantissa and an
    exponent from -52 to 0. *)
Lemma binary_round_int (p : positive) :
  Z.pos (digits2_pos p) <= 53 ->
  exists m e,
    binary_round prec emax false p 0 = S754_finite false m e
    /\ Z.pos (digits2_pos m) = 53 /\ -52 <= e <= 0.
Proof.
  intros Hd. unfold binary_round.
  assert (Hf : fexp prec emax (Z.pos (digits2_pos p) + 0) = Z.pos (digits2_pos p) - 53)
    by (unfold fexp, emin, prec, emax; lia).
  rewrite Hf.
  assert (Hal : exists m, shl_align p 0 (Z.pos (digits2_pos p) - 53)
                          = (m, Z.pos (digits2_pos p) - 53)
                          /\ Z.pos (digits2_pos m) = 53).
  { unfold shl_align. destruct (Z.pos (digits2_pos p) - 53 - 0) as [|q|q] eqn:E.
    - exists p. split; [f_equal; lia | lia].
    - lia.
    - exists (Pos.iter xO p q). split; [reflexivity|]. rewrite digits2_iter_xO. lia. }
  destruct Hal as (m & -> & Hm).
  set (e := Z.pos (digits2_pos p) - 53) in *.
  exists m, e. split; [|split; [exact Hm | unfold e; lia]].
  unfold binary_round_aux, shr_fexp. cbn [Zdigits2 shr_record_of_loc].
  assert (Hz : fexp prec emax (Z.pos (digits2_pos m) + e) - e = 0)
    by (unfold fexp, emin, prec, emax, e; lia).
  rewrite Hz. cbn [shr shr_m loc_of_shr_record round_nearest_even Zdigits2 shr_record_of_loc].
  rewrite Hz. cbn [shr shr_m].
  replace (e <=? emax - prec) with true; [reflexivity|].
  symmetry. apply Z.leb_le. unfold emax, prec, e. lia.
Qed.

Lemma float_of_int_spec (z : Z) :
  0 <= z < 2 ^ 53 ->
  (z = 0 /\ Prim2SF (float_of_int z) = S754_zero false)
  \/ exists m e, Prim2SF (float_of_int z) = S754_finite false m e
       /\ Z.pos (digits2_pos m) = 53 /\ -52 <= e <= 0.
Proof.
  intros Hz. unfold float_of_int. rewrite FloatAxioms.of_uint63_spec, Uint63.of_Z_spec.
  rewrite Z.mod_small by (change Uint63.wB with (2 ^ 63); lia).
  destruct z as [|p|p]; [left; split; reflexivity | right | lia].
  cbn [binary_normalize]. apply binary_round_int.
  apply Zdigits2_le with (m := Z.pos p); lia.
Qed.

(** The quotient of two such floats is a zero or a finite float with an
    exponent of at most 53. *)
Lemma SFdiv_int (m1 m2 : positive) (e1 e2 : Z) :
  Z.pos (digits2_pos m1) = 53 -> Z.pos (digits2_pos m2) = 53 ->
  -52 <= e1 <= 0 -> -52 <= e2 <= 0 ->
  match SF64div (S754_finite false m1 e1) (S754_finite false m2 e2) with
  | S754_zero _ => True
  | S754_finite _ _ e => e <= 53
  | _ => False
  end.
Proof.
  intros Hd1 Hd2 He1 He2. unfold SF64div. cbn [SFdiv xorb].
  unfold SFdiv_core_binary. cbn [Zdigits2]. rewrite Hd1, Hd2.
  set (e' := Z.min (fexp prec emax (53 + e1 - (53 + e2))) (e1 - e2)).
  set (s := e1 - e2 - e').
  assert (He' : e' = e1 - e2 - 53) by (unfold e', fexp, emin, prec, emax; lia).
  assert (Hs : s = 53) by (unfold s; lia).
  set (m' := match s with Z.pos _ => Z.shiftl (Z.pos m1) s | 0 => Z.pos m1 | Z.neg _ => 0 end).
  assert (Hm' : m' = Z.pos m1 * 2 ^ 53).
  { unfold m'. rewrite Hs. rewrite Z.shiftl_mul_pow2 by lia. reflexivity. }
  pose proof (Z.div_eucl_eq m' (Z.pos m2) ltac:(lia)) as Heq.
  pose proof (Z.mod_pos_bound m' (Z.pos m2) ltac:(lia)) as Hr.
  unfold Z.modulo in Hr.
  destruct (Z.div_eucl m' (Z.pos m2)) as [q r].
  pose proof (digits2_bounds m1) as [_ H1]. rewrite Hd1 in H1.
  assert (Hq : 0 <= q < 2 ^ 106).
  { assert (Hm'b : 0 <= m' < 2 ^ 106).
    { rewrite Hm'. change (2 ^ 106) with (2 ^ 53 * 2 ^ 53). nia. }
    split; nia. }
  apply binary_round_aux_bounded; try lia.
  pose proof (Zdigits2_le q 106 ltac:(lia) Hq). lia.
Qed.

(** Such a float times a float of mantissa width 53 and exponent -46, as
    100.0 is, is a zero or a finite float. *)
Lemma SFmul_hundred (x : spec_float) (m100 : positive) :
  valid_binary x = true ->
  match x with S754_zero _ => True | S754_finite _ _ e => e <= 53 | _ => False end ->
  Z.pos (digits2_pos m100) = 53 ->
  finite_sf (SF64mul x (S754_finite false m100 (-46))) = true.
Proof.
  intros Hv Hx H100. unfold SF64mul.
  destruct x as [s|s| |s m e]; try contradiction; [reflexivity|].
  cbn [SFmul].
  cbn [valid_binary] in Hv. unfold bounded, canonical_mantissa in Hv.
  apply andb_prop in Hv. destruct Hv as [Hc _]. apply Z.eqb_eq in Hc.
  assert (Hdm : Z.pos (digits2_pos m) <= 53) by (unfold fexp, emin, prec, emax in Hc; lia).
  pose proof (digits2_bounds m) as [_ Hm]. pose proof (digits2_bounds m100) as [_ Hh].
  rewrite H100 in Hh.
  assert (Hmb : Z.pos m < 2 ^ 53).
  { apply Z.lt_le_trans with (2 ^ Z.pos (digits2_pos m)); [exact Hm|].
    apply Z.pow_le_mono_r; lia. }
  assert (Hprod : 0 <= Z.pos (m * m100) < 2 ^ 106).
  { rewrite Pos2Z.inj_mul. change (2 ^ 106) with (2 ^ 53 * 2 ^ 53). nia. }
  pose proof (Zdigits2_le _ 106 ltac:(lia) Hprod) as Hd.
  pose proof (binary_round_aux_bounded (xorb s false) (Z.pos (m * m100)) (e + -46)
                loc_Exact 61 ltac:(lia) ltac:(lia) ltac:(lia) ltac:(lia)) as Hb.
  destruct (binary_round_aux prec emax (xorb s false) (Z.pos (m * m100)) (e + -46) loc_Exact);
    try contradiction; reflexivity.
Qed.

(** ** Mixture sampling in float64 *)

Section SamplingF64.

Variable mp : F64.MixtureParams.
Variable d : F64.Draws.
Variable random : F64.Tensor.
Variable ix : Index.

Lemma f64_mask_set_of_succ (k : nat) :
  F64.mask_set_of mp (S k) = F64.k_back.add (F64.mask_set_of mp k) (F64.weights mp k).
Proof. unfold F64.mask_set_of. rewrite seq_S, fold_left_app. reflexivity. Qed.

(** The bound component [k] is tested against from above is, bit for bit,
    the bound component [k + 1] is tested against from below. *)
Lemma f64_upper_is_next_lower (k : nat) :
  F64.upper_bound mp k ix = F64.mask_set_of mp (S k) ix.
Proof.
  rewrite f64_mask_set_of_succ. unfold F64.upper_bound, F64.k_back.add. apply f64_add_comm.
Qed.

Lemma f64_component_mask_bounds (k : nat) :
  F64.component_mask mp random k ix
  = PrimFloat.ltb (random ix) (F64.upper_bound mp k ix)
    && PrimFloat.leb (F64.mask_set_of mp k ix) (random ix).
Proof. reflexivity. Qed.

Lemma f64_sample_loop_value :
  fold_left (F64.sample_step mp d random) (seq 0 4) (F64.k_back.zeros_like (F64.means mp 0%nat)) ix
  = F64.masked_sum (fun k => F64.component_mask mp random k ix)
      (fun k => F64.component_distribution mp d k ix).
Proof. reflexivity. Qed.

End SamplingF64.

(** Five bounds in order and a draw from the first up to, but not at, the
    last: the draw is in exactly one of the four intervals. *)
Lemma one_interval (b0 b1 b2 b3 b4 u : float) :
  PrimFloat.leb b0 b1 = true -> PrimFloat.leb b1 b2 = true ->
  PrimFloat.leb b2 b3 = true -> PrimFloat.leb b3 b4 = true ->
  PrimFloat.leb b0 u = true -> PrimFloat.ltb u b4 = true ->
  exists k, (k < 4)%nat
    /\ forall j, (j < 4)%nat ->
         PrimFloat.ltb u (nth (S j) [b0; b1; b2; b3; b4] b4)
         && PrimFloat.leb (nth j [b0; b1; b2; b3; b4] b4) u
         = Nat.eqb j k.
Proof.
  intros H01 H12 H23 H34 H0 H4.
  destruct (f64_leb_not_nan _ _ H0) as [_ Hu].
  destruct (f64_leb_not_nan _ _ H01) as [_ N1]. destruct (f64_leb_not_nan _ _ H12) as [_ N2].
  destruct (f64_leb_not_nan _ _ H23) as [_ N3]. destruct (f64_leb_not_nan _ _ H34) as [_ N4].
  rewrite (f64_ltb_negb_leb u b4 Hu N4) in H4.
  pose proof (f64_leb_trans b0 b1 u H01) as T1. pose proof (f64_leb_trans b1 b2 u H12) as T2.
  pose proof (f64_leb_trans b2 b3 u H23) as T3. pose proof (f64_leb_trans b3 b4 u H34) as T4.
  assert (Hall : forall k : nat, forall j, (j < 4)%nat ->
            (negb (PrimFloat.leb (nth (S j) [b0; b1; b2; b3; b4] b4) u)
             && PrimFloat.leb (nth j [b0; b1; b2; b3; b4] b4) u = Nat.eqb j k) ->
            PrimFloat.ltb u (nth (S j) [b0; b1; b2; b3; b4] b4)
            && PrimFloat.leb (nth j [b0; b1; b2; b3; b4] b4) u = Nat.eqb j k).
  { intros k j Hj E. rewrite <- E. f_equal.
    destruct j as [|[|[|[|j]]]]; try lia; cbn [nth]; apply f64_ltb_negb_leb; assumption. }
  set (l1 := PrimFloat.leb b1 u) in *. set (l2 := PrimFloat.leb b2 u) in *.
  set (l3 := PrimFloat.leb b3 u) in *. set (l4 := PrimFloat.leb b4 u) in *.
  exists (if l3 then 3 else if l2 then 2 else if l1 then 1 else 0)%nat.
  split; [destruct l3, l2, l1; lia|].
  intros j Hj. apply Hall; [exact Hj|].
  destruct j as [|[|[|[|j]]]]; try lia; cbn [nth];
    fold l1 l2 l3 l4; rewrite ?H0;
    destruct l1, l2, l3, l4; try reflexivity; try discriminate H4;
    try (specialize (T2 eq_refl); discriminate T2);
    try (specialize (T3 eq_refl); discriminate T3);
    try (specialize (T4 eq_refl); discriminate T4).
Qed.

(** The masks of [sample_output] as the intervals between five bounds:
    0.0 and the four sums [weights[k] + mask_set]. *)
Lemma f64_one_mask (mp : F64.MixtureParams) (random : F64.Tensor) (ix : Index) :
  (forall k, (k < 4)%nat ->
     PrimFloat.leb (F64.mask_set_of mp k ix) (F64.upper_bound mp k ix) = true) ->
  PrimFloat.leb PrimFloat.zero (random ix) = true ->
  PrimFloat.ltb (random ix) (F64.upper_bound mp 3 ix) = true ->
  exists k, (k < 4)%nat
    /\ forall j, (j < 4)%nat -> F64.component_mask mp random j ix = Nat.eqb j k.
Proof.
  intros Hord H0 H4.
  pose proof (Hord 0%nat ltac:(lia)) as O0. pose proof (Hord 1%nat ltac:(lia)) as O1.
  pose proof (Hord 2%nat ltac:(lia)) as O2. pose proof (Hord 3%nat ltac:(lia)) as O3.
  rewrite <- (f64_upper_is_next_lower mp ix 0) in O1.
  rewrite <- (f64_upper_is_next_lower mp ix 1) in O2.
  rewrite <- (f64_upper_is_next_lower mp ix 2) in O3.
  destruct (one_interval _ _ _ _ _ _ O0 O1 O2 O3 H0 H4) as (k & Hk & Hmask).
  exists k. split; [exact Hk|]. intros j Hj. rewrite <- (Hmask j Hj).
  rewrite f64_component_mask_bounds.
  destruct j as [|[|[|[|j]]]]; try lia; cbn [nth];
    rewrite <- ?f64_upper_is_next_lower; reflexivity.
Qed.

(** No mask is set when the draw is at or above the last bound. *)
Lemma f64_no_mask (mp : F64.MixtureParams) (random : F64.Tensor) (ix : Index) :
  (forall k, (k < 4)%nat ->
     PrimFloat.leb (F64.mask_set_of mp k ix) (F64.upper_bound mp k ix) = true) ->
  PrimFloat.leb (F64.upper_bound mp 3 ix) (random ix) = true ->
  forall k, (k < 4)%nat -> F64.component_mask mp random k ix = false.
Proof.
  intros Hord H4.
  pose proof (Hord 1%nat ltac:(lia)) as O1.
  pose proof (Hord 2%nat ltac:(lia)) as O2. pose proof (Hord 3%nat ltac:(lia)) as O3.
  rewrite <- (f64_upper_is_next_lower mp ix 0) in O1.
  rewrite <- (f64_upper_is_next_lower mp ix 1) in O2.
  rewrite <- (f64_upper_is_next_lower mp ix 2) in O3.
  pose proof (f64_leb_trans _ _ _ O3 H4) as H3.
  pose proof (f64_leb_trans _ _ _ O2 H3) as H2.
  pose proof (f64_leb_trans _ _ _ O1 H2) as H1.
  intros k Hk. rewrite f64_component_mask_bounds.
  destruct k as [|[|[|[|k]]]]; try lia;
    rewrite f64_leb_ltb_false by assumption; reflexivity.
Qed.

(** With weights that are at least 0.0 the running sums start at 0.0 and
    none is lowered by the weight added to it. *)
Lemma f64_running_sums (mp : F64.MixtureParams) (ix : Index) :
  (forall k, (k < 4)%nat -> PrimFloat.leb PrimFloat.zero (F64.weights mp k ix) = true) ->
  forall k, (k < 4)%nat ->
    PrimFloat.leb PrimFloat.zero (F64.mask_set_of mp k ix) = true
    /\ PrimFloat.leb (F64.mask_set_of mp k ix) (F64.upper_bound mp k ix) = true.
Proof.
  intros Hw.
  assert (Hstep : forall k, (k < 4)%nat ->
            PrimFloat.leb PrimFloat.zero (F64.mask_set_of mp k ix) = true ->
            PrimFloat.leb (F64.mask_set_of mp k ix) (F64.upper_bound mp k ix) = true).
  { intros k Hk H0. apply f64_add_nonneg_lower; [apply Hw; exact Hk | exact H0]. }
  assert (Hnext : forall k, (k < 4)%nat ->
            PrimFloat.leb PrimFloat.zero (F64.mask_set_of mp k ix) = true ->
            PrimFloat.leb PrimFloat.zero (F64.mask_set_of mp (S k) ix) = true).
  { intros k Hk H0. rewrite <- f64_upper_is_next_lower.
    apply (f64_leb_trans _ _ _ H0). apply Hstep; assumption. }
  assert (H0 : PrimFloat.leb PrimFloat.zero (F64.mask_set_of mp 0 ix) = true) by reflexivity.
  pose proof (Hnext 0%nat ltac:(lia) H0) as H1.
  pose proof (Hnext 1%nat ltac:(lia) H1) as H2.
  pose proof (Hnext 2%nat ltac:(lia) H2) as H3.
  intros k Hk. destruct k as [|[|[|[|k]]]]; try lia;
    (split; [assumption | apply Hstep; [lia | assumption]]).
Qed.

(** The masked sum when no mask is set, and when one is. *)
Lemma masked_sum_none (mask : nat -> bool) (distribution : nat -> float) :
  (forall k, (k < 4)%nat -> mask k = false /\ F64.finite (distribution k) = true) ->
  F64.masked_sum mask distribution = PrimFloat.zero.
Proof.
  intros H. unfold F64.masked_sum. cbn [seq fold_left].
  destruct (H 0%nat ltac:(lia)) as [-> F0]. destruct (H 1%nat ltac:(lia)) as [-> F1].
  destruct (H 2%nat ltac:(lia)) as [-> F2]. destruct (H 3%nat ltac:(lia)) as [-> F3].
  rewrite !f64_add_zero_masked_out by assumption. reflexivity.
Qed.

Lemma masked_sum_one (mask : nat -> bool) (distribution : nat -> float) (k : nat) :
  (k < 4)%nat -> mask k = true ->
  (forall j, (j < 4)%nat -> j <> k ->
     mask j = false /\ F64.finite (distribution j) = true) ->
  F64.masked_sum mask distribution
  = if PrimFloat.is_zero (distribution k) then PrimFloat.zero else distribution k.
Proof.
  intros Hk Hsel Hrest. unfold F64.masked_sum. cbn [seq fold_left].
  pose proof (selected_not_neg_zero (distribution k)) as Hnz.
  destruct k as [|[|[|[|k]]]]; try lia; rewrite Hsel;
    repeat match goal with
      | |- context [mask ?j] =>
          let F := fresh "F" in
          destruct (Hrest j ltac:(lia) ltac:(lia)) as [-> F]
      end;
    rewrite ?f64_add_zero_masked_out by assumption;
    rewrite f64_add_zero_selected;
    repeat match goal with
      | F : F64.finite (distribution ?j) = true |- _ =>
          rewrite (f64_add_selected_masked_out _ (distribution j) Hnz F)
      end;
    reflexivity.
Qed.

Lemma f64_sample_output_last (multi_params : F64.Tensor -> float -> F64.MixtureParams)
    (d : F64.Draws) (earlier : list F64.Tensor) (frame : F64.Tensor) (temp : float)
    (ix : Index) :
  exists t, F64.sample_output multi_params d (earlier ++ [frame]) temp = Some t
    /\ t ix = F64.masked_sum
                (fun k => F64.component_mask (multi_params frame temp) (F64.uniform d) k ix)
                (fun k => F64.component_distribution (multi_params frame temp) d k ix).
Proof.
  unfold F64.sample_output. rewrite rev_app_distr. cbn [rev app].
  eexists. split; [reflexivity|]. apply f64_sample_loop_value.
Qed.

Lemma masks_set_one (mp : F64.MixtureParams) (random : F64.Tensor) (ix : Index) (k : nat) :
  (k < 4)%nat ->
  (forall j, (j < 4)%nat -> F64.component_mask mp random j ix = Nat.eqb j k) ->
  F64.masks_set mp random ix = 1%nat.
Proof.
  intros Hk H. unfold F64.masks_set. cbn [seq filter].
  rewrite (H 0%nat), (H 1%nat), (H 2%nat), (H 3%nat) by lia.
  destruct k as [|[|[|[|k]]]]; try lia; reflexivity.
Qed.

Lemma f64_add_nan_l (x y : float) :
  Prim2SF x = S754_nan -> Prim2SF (PrimFloat.add x y) = S754_nan.
Proof. intros H. rewrite add_spec, H. reflexivity. Qed.

Lemma f64_add_nan_r (x y : float) :
  Prim2SF y = S754_nan -> Prim2SF (PrimFloat.add x y) = S754_nan.
Proof. intros H. rewrite add_spec, H. destruct (Prim2SF x); reflexivity. Qed.

(** With no mask set, one sample that is not finite turns the sum into a
    NaN. *)
Lemma masked_sum_nan (mask : nat -> bool) (distribution : nat -> float) (j : nat) :
  (forall k, (k < 4)%nat -> mask k = false) ->
  (j < 4)%nat -> F64.finite (distribution j) = false ->
  Prim2SF (F64.masked_sum mask distribution) = S754_nan.
Proof.
  intros H Hj Hinf. unfold F64.masked_sum. cbn [seq fold_left].
  rewrite (H 0%nat), (H 1%nat), (H 2%nat), (H 3%nat) by lia.
  pose proof (f64_mul_zero_not_finite _ Hinf) as Hn.
  destruct j as [|[|[|[|j]]]]; try lia;
    repeat first [ apply f64_add_nan_r; exact Hn | apply f64_add_nan_l ].
Qed.

#[local] Set Warnings "-inexact-float".

(** C2, as the code has it. The test of [sample_output] runs on float64
    sums. With four weights that are at least 0.0 and a draw that is at
    least 0.0 and below [weights[3] + mask_set], the sum of all four weights
    as the code computes it, the mask of exactly one component is set at the
    element; and when the samples of the other three components are finite,
    the value returned there is the sample of that component (0.0 for a
    sample -0.0). *)
Theorem sample_output_selects_exactly_one
    (multi_params : F64.Tensor -> float -> F64.MixtureParams) (d : F64.Draws)
    (earlier : list F64.Tensor) (frame : F64.Tensor) (temp : float) (ix : Index) :
  let mp := multi_params frame temp in
  (forall k, (k < 4)%nat -> PrimFloat.leb PrimFloat.zero (F64.weights mp k ix) = true) ->
  PrimFloat.leb PrimFloat.zero (F64.uniform d ix) = true ->
  PrimFloat.ltb (F64.uniform d ix) (F64.upper_bound mp 3 ix) = true ->
  F64.masks_set mp (F64.uniform d) ix = 1%nat
  /\ exists k, (k < 4)%nat
       /\ F64.component_mask mp (F64.uniform d) k ix = true
       /\ (forall j, (j < 4)%nat ->
             F64.component_mask mp (F64.uniform d) j ix = true -> j = k)
       /\ ((forall j, (j < 4)%nat -> j <> k ->
              F64.finite (F64.component_distribution mp d j ix) = true) ->
           exists t, F64.sample_output multi_params d (earlier ++ [frame]) temp = Some t
             /\ t ix = if PrimFloat.is_zero (F64.component_distribution mp d k ix)
                       then PrimFloat.zero
                       else F64.component_distribution mp d k ix).
Proof.
  intros mp Hw H0 H4.
  assert (Hord : forall k, (k < 4)%nat ->
            PrimFloat.leb (F64.mask_set_of mp k ix) (F64.upper_bound mp k ix) = true)
    by (intros k Hk; apply (f64_running_sums mp ix Hw k Hk)).
  destruct (f64_one_mask mp (F64.uniform d) ix Hord H0 H4) as (k & Hk & Hmask).
  split; [apply (masks_set_one mp (F64.uniform d) ix k Hk Hmask)|].
  exists k. split; [exact Hk|]. split; [rewrite Hmask by exact Hk; apply Nat.eqb_refl|].
  split.
  - intros j Hj Hset. rewrite Hmask in Hset by exact Hj. apply Nat.eqb_eq. exact Hset.
  - intros Hfin.
    destruct (f64_sample_output_last multi_params d earlier frame temp ix) as (t & Ht & Hv).
    exists t. split; [exact Ht|]. rewrite Hv. fold mp.
    apply (masked_sum_one (fun j => F64.component_mask mp (F64.uniform d) j ix)
             (fun j => F64.component_distribution mp d j ix) k Hk).
    + rewrite Hmask by exact Hk. apply Nat.eqb_refl.
    + intros j Hj Hne. split; [|apply Hfin; assumption].
      rewrite Hmask by exact Hj. apply Nat.eqb_neq. exact Hne.
Qed.

Lemma sample_output_selects_exactly_one_witness :
  let mp := F64.params_of [0; 4; 8; 12]%float [1; 1; 1; 1]%float
              [0.25; 0.25; 0.25; 0.25]%float in
  F64.masks_set mp (F64.const_tensor 0.25%float) (0%nat, 0%nat) = 1%nat.
Proof.
  intros mp.
  refine (proj1 (sample_output_selects_exactly_one
                   (fun _ _ => mp) (F64.const_draws 0.25%float 0%float) []
                   (F64.const_tensor 0%float) 1%float (0%nat, 0%nat) _ _ _)).
  - intros k Hk. destruct k as [|[|[|[|k]]]]; try lia; reflexivity.
  - reflexivity.
  - reflexivity.
Defined.

(** The boundary policy on weights [0.25, 0.25, 0.25, 0.25], in float64: a
    draw that sits on a bound belongs to the component above it. *)
Example boundary_draws :
  let mp := F64.params_of [0; 4; 8; 12]%float [1; 1; 1; 1]%float
              [0.25; 0.25; 0.25; 0.25]%float in
  let masks u :=
    map (fun k => F64.component_mask mp (F64.const_tensor u) k (0%nat, 0%nat)) (seq 0 4) in
  masks 0%float = [true; false; false; false]
  /\ masks 0.25%float = [false; true; false; false]
  /\ masks 0.9999%float = [false; false; false; true].
Proof. repeat split. Qed.

(** C2, counterexample. Four non-negative float64 weights whose exact sum
    is 1: the running sums are rounded down to 1 - 2^-53 each time, and the
    draw 1 - 2^-53, below 1, sets no mask. And with weights 0.25 each and
    the draw 0.3, the one mask set is that of component 1, but a sample of
    component 0 that is infinite makes the value returned a NaN. *)
Lemma rounded_sum_leaves_gap :
  let w := [0x1.fffffffffffffp-1; 0x1.8p-55; 0x1.8p-55; 0x1p-55]%float in
  let mp := F64.params_of [0; 4; 8; 12]%float [1; 1; 1; 1]%float w in
  let u := 0x1.fffffffffffffp-1%float in
  let mp' := F64.params_of [infinity; 4; 8; 12]%float [1; 1; 1; 1]%float
               [0.25; 0.25; 0.25; 0.25]%float in
  (forallb (PrimFloat.leb 0) w = true
   /\ (F64.exact (nth 0 w 0%float) + F64.exact (nth 1 w 0%float)
       + F64.exact (nth 2 w 0%float) + F64.exact (nth 3 w 0%float) == 1)%Q
   /\ PrimFloat.leb 0 u = true /\ PrimFloat.ltb u 1 = true
   /\ F64.masks_set mp (F64.const_tensor u) (0%nat, 0%nat) = 0%nat)
  /\ (F64.masks_set mp' (F64.const_tensor 0.3%float) (0%nat, 0%nat) = 1%nat
      /\ option_map (fun t => Prim2SF (t (0%nat, 0%nat)))
           (F64.sample_output (fun _ _ => mp') (F64.const_draws 0.3%float 0%float)
              [F64.const_tensor 0%float] 1%float)
         = Some S754_nan).
Proof. vm_compute. repeat split. Qed.

(** C10, as the code has it. With weights that are at least 0.0, when the
    draw at an element is at or above [weights[3] + mask_set], the float64
    sum of the four weights, no mask is set there; the value returned for
    the element is then 0.0 when the four samples are finite, and a NaN
    when one of them is not. *)
Theorem sample_output_gap_yields_zero
    (multi_params : F64.Tensor -> float -> F64.MixtureParams) (d : F64.Draws)
    (earlier : list F64.Tensor) (frame : F64.Tensor) (temp : float) (ix : Index) :
  let mp := multi_params frame temp in
  (forall k, (k < 4)%nat -> PrimFloat.leb PrimFloat.zero (F64.weights mp k ix) = true) ->
  PrimFloat.leb (F64.upper_bound mp 3 ix) (F64.uniform d ix) = true ->
  (forall k, (k < 4)%nat -> F64.component_mask mp (F64.uniform d) k ix = false)
  /\ exists t, F64.sample_output multi_params d (earlier ++ [frame]) temp = Some t
       /\ ((forall k, (k < 4)%nat ->
              F64.finite (F64.component_distribution mp d k ix) = true) ->
           t ix = PrimFloat.zero)
       /\ ((exists k, (k < 4)%nat
              /\ F64.finite (F64.component_distribution mp d k ix) = false) ->
           Prim2SF (t ix) = S754_nan).
Proof.
  intros mp Hw H4.
  assert (Hord : forall k, (k < 4)%nat ->
            PrimFloat.leb (F64.mask_set_of mp k ix) (F64.upper_bound mp k ix) = true)
    by (intros k Hk; apply (f64_running_sums mp ix Hw k Hk)).
  pose proof (f64_no_mask mp (F64.uniform d) ix Hord H4) as Hnone.
  split; [exact Hnone|].
  destruct (f64_sample_output_last multi_params d earlier frame temp ix) as (t & Ht & Hv).
  exists t. split; [exact Ht|]. fold mp in Hv. rewrite Hv. split.
  - intros Hfin.
    apply (masked_sum_none (fun j => F64.component_mask mp (F64.uniform d) j ix)
             (fun j => F64.component_distribution mp d j ix)).
    intros k Hk. split; [apply Hnone | apply Hfin]; exact Hk.
  - intros (k & Hk & Hinf).
    apply (masked_sum_nan (fun j => F64.component_mask mp (F64.uniform d) j ix)
             (fun j => F64.component_distribution mp d j ix) k); assumption.
Qed.

Lemma sample_output_gap_yields_zero_witness :
  let mp := F64.params_of [0; 4; 8; 12]%float [1; 1; 1; 1]%float
              [0.2; 0.2; 0.2; 0.2]%float in
  exists t,
    F64.sample_output (fun _ _ => mp) (F64.const_draws 0.9%float 3%float)
      [F64.const_tensor 0%float] 1%float = Some t
    /\ t (0%nat, 0%nat) = 0%float.
Proof.
  intros mp.
  destruct (sample_output_gap_yields_zero
              (fun _ _ => mp) (F64.const_draws 0.9%float 3%float) []
              (F64.const_tensor 0%float) 1%float (0%nat, 0%nat))
    as (_ & t & Ht & Hzero & _).
  - intros k Hk. destruct k as [|[|[|[|k]]]]; try lia; reflexivity.
  - reflexivity.
  - exists t. split; [exact Ht|]. apply Hzero.
    intros k Hk. destruct k as [|[|[|[|k]]]]; try lia; reflexivity.
Defined.

(** C10, counterexample. With weights 0.2 each the draw 0.9 is above the
    sum of the four weights, and a sample of component 0 that is infinite
    makes the value returned a NaN, not 0. And with weights 0.5 and three
    times 2^-54 + 2^-80 the draw 0.5 + 2^-52 is above their exact sum, yet
    below the float64 sum the code compares it with: the mask of component
    3 is set. *)
Lemma gap_value_not_always_zero :
  let mp := F64.params_of [infinity; 4; 8; 12]%float [1; 1; 1; 1]%float
              [0.2; 0.2; 0.2; 0.2]%float in
  let w := [0.5; 0x1.0000004p-54; 0x1.0000004p-54; 0x1.0000004p-54]%float in
  let mp' := F64.params_of [0; 4; 8; 12]%float [1; 1; 1; 1]%float w in
  let u := 0x1.0000000000002p-1%float in
  (PrimFloat.leb (F64.upper_bound mp 3 (0%nat, 0%nat)) 0.9%float = true
   /\ F64.masks_set mp (F64.const_tensor 0.9%float) (0%nat, 0%nat) = 0%nat
   /\ option_map (fun t => Prim2SF (t (0%nat, 0%nat)))
        (F64.sample_output (fun _ _ => mp) (F64.const_draws 0.9%float 0%float)
           [F64.const_tensor 0%float] 1%float)
      = Some S754_nan)
  /\ ((F64.exact (nth 0 w 0%float) + F64.exact (nth 1 w 0%float)
       + F64.exact (nth 2 w 0%float) + F64.exact (nth 3 w 0%float) <= F64.exact u)%Q
      /\ F64.component_mask mp' (F64.const_tensor u) 3 (0%nat, 0%nat) = true).
Proof. vm_compute. repeat split; discriminate. Qed.




(** ** Lists as arrays *)

Lemma set_nth_app {A : Type} (l1 l2 : list A) (x r : A) :
  set_nth (l1 ++ x :: l2) (List.length l1) r = l1 ++ r :: l2.
Proof.
  induction l1 as [|y l1 IH]; simpl; [reflexivity|]. rewrite IH. reflexivity.
Qed.

Lemma set_nth_length {A : Type} (a : list A) (i : nat) (r : A) :
  List.length (set_nth a i r) = List.length a.
Proof.
  revert i. induction a as [|x a IH]; intros [|i]; simpl; try reflexivity.
  rewrite IH. reflexivity.
Qed.

Lemma skipn_cons_nth {A : Type} (n : nat) (l : list A) :
  (n < List.length l)%nat -> exists x, skipn n l = x :: skipn (S n) l.
Proof.
  revert l. induction n as [|n IH]; intros [|y l] Hn; simpl in Hn; try lia.
  - exists y. reflexivity.
  - destruct (IH l ltac:(lia)) as [x Hx]. exists x. exact Hx.
Qed.

Lemma slice_app_l {A : Type} (l1 l2 : list A) (start end_ : Z) :
  0 <= start -> 0 <= end_ <= Z.of_nat (List.length l1) ->
  slice (l1 ++ l2) start end_ = slice l1 start end_.
Proof.
  intros Hs He. unfold slice, slice_bound. rewrite length_app, Nat2Z.inj_add.
  replace (start <? 0) with false by (symmetry; apply Z.ltb_ge; lia).
  replace (end_ <? 0) with false by (symmetry; apply Z.ltb_ge; lia).
  rewrite !(Z.min_l end_) by lia.
  destruct (Z_le_gt_dec start end_) as [Hle|Hgt].
  - rewrite !(Z.min_l start) by lia.
    rewrite skipn_app, firstn_app.
    replace (Z.to_nat (end_ - start) - List.length (skipn (Z.to_nat start) l1))%nat
      with 0%nat by (rewrite length_skipn; lia).
    rewrite firstn_O, app_nil_r. reflexivity.
  - replace (Z.to_nat (end_ - Z.min start (Z.of_nat (List.length l1) + Z.of_nat (List.length l2))))
      with 0%nat by lia.
    replace (Z.to_nat (end_ - Z.min start (Z.of_nat (List.length l1))))
      with 0%nat by lia.
    reflexivity.
Qed.

Lemma slice_all {A : Type} (l : list A) :
  slice l 0 (Z.of_nat (List.length l)) = l.
Proof.
  unfold slice, slice_bound. simpl.
  replace (Z.of_nat (List.length l) <? 0) with false by (symmetry; apply Z.ltb_ge; lia).
  rewrite Z.min_id, Z.min_l, Z.sub_0_r, Nat2Z.id by lia.
  simpl. apply firstn_all.
Qed.

Lemma concatenate_cols_length (a b : Array) :
  List.length (concatenate_cols a b) = Nat.min (List.length a) (List.length b).
Proof.
  unfold concatenate_cols. rewrite length_map, length_combine. reflexivity.
Qed.

Lemma attach_spectral_length (spectral_data : option Array) (lo hi n : Z) (window : Array) :
  spectral_rows spectral_data n -> 0 <= lo <= hi -> hi <= n ->
  List.length window = Z.to_nat (hi - lo) ->
  List.length (attach_spectral spectral_data lo hi window) = Z.to_nat (hi - lo).
Proof.
  intros Hsp Hlo Hhi Hw. destruct spectral_data as [sd|]; simpl in *; [|exact Hw].
  rewrite concatenate_cols_length, slice_length by lia. lia.
Qed.

Lemma zeros_length (rows cols : Z) : List.length (zeros rows cols) = Z.to_nat rows.
Proof. unfold zeros. apply repeat_length. Qed.

Lemma pad_start_zero_row (a : Array) : zero_row (hd [] (pad_start a)).
Proof.
  unfold pad_start, zero_row. simpl. apply Forall_forall.
  intros q Hq. apply repeat_spec in Hq. exact Hq.
Qed.

(** ** The label window *)

Lemma label_window_slice (receptive_field : Z) (label_data : Array) (i : Z) :
  label_window receptive_field label_data i
  = slice label_data (Z.max 0 (i + 1 - receptive_field)) (i + 1).
Proof.
  unfold label_window. destruct (Z.ltb_spec i receptive_field) as [Hlt|Hge].
  - rewrite Z.max_l by lia. reflexivity.
  - rewrite Z.max_r by lia. reflexivity.
Qed.

(** ** The loop variables, step by step *)

Section TraceFacts.

Variable generator : Generator.
Variable receptive_field : Z.
Variable label_data : Array.
Variable spectral_data : option Array.
Variable st0 : LoopState.

Local Abbreviation before := (state_before generator receptive_field label_data spectral_data st0).
Local Abbreviation row := (generated_row generator receptive_field label_data spectral_data st0).
Local Abbreviation rows := (generated_rows generator receptive_field label_data spectral_data st0).

Lemma state_before_succ (n : nat) :
  before (Z.of_nat (S n))
  = generate_step generator receptive_field label_data spectral_data (Z.of_nat n)
      (before (Z.of_nat n)).
Proof.
  unfold state_before, run_steps. rewrite range_nat_succ, fold_left_app. reflexivity.
Qed.

Lemma generated_rows_succ (n : nat) :
  rows (Z.of_nat (S n)) = rows (Z.of_nat n) ++ [row (Z.of_nat n)].
Proof.
  unfold generated_rows. rewrite range_nat_succ, map_app. reflexivity.
Qed.

Lemma generated_rows_length (t : Z) : List.length (rows t) = Z.to_nat t.
Proof. unfold generated_rows. rewrite length_map. apply length_range. Qed.

(** When step [n] starts, the first [n] rows of [output] are the rows
    generated so far and the others are as they were at the start. *)
Lemma output_before (n : nat) :
  (n <= List.length (output st0))%nat ->
  output (before (Z.of_nat n)) = rows (Z.of_nat n) ++ skipn n (output st0).
Proof.
  induction n as [|n IH]; intros Hn.
  - reflexivity.
  - rewrite state_before_succ. unfold generate_step. cbn [output].
    rewrite IH by lia. fold (row (Z.of_nat n)).
    destruct (skipn_cons_nth n (output st0) ltac:(lia)) as [x Hx]. rewrite Hx.
    unfold set_row.
    replace (Z.of_nat n <? 0) with false by (symmetry; apply Z.ltb_ge; lia).
    rewrite Nat2Z.id.
    pose proof (set_nth_app (rows (Z.of_nat n)) (skipn (S n) (output st0)) x
                  (row (Z.of_nat n))) as Hset.
    rewrite generated_rows_length, Nat2Z.id in Hset. rewrite Hset.
    rewrite generated_rows_succ, <- app_assoc. reflexivity.
Qed.

(** [next_model_input] reads only the rows up to the current one. *)
Lemma next_model_input_app (l1 l2 : Array) (i : Z) :
  0 <= i -> Z.of_nat (List.length l1) = i + 1 ->
  next_model_input receptive_field spectral_data (l1 ++ l2) i
  = if i <? receptive_field - 1
    then pad_start (attach_spectral spectral_data 0 (i + 1) l1)
    else attach_spectral spectral_data (i + 1 - receptive_field) (i + 1)
           (slice l1 (i + 1 - receptive_field) (i + 1)).
Proof.
  intros Hi Hlen. unfold next_model_input.
  destruct (Z.ltb_spec i (receptive_field - 1)) as [Hlt|Hge].
  - rewrite slice_app_l by lia. rewrite <- Hlen, slice_all.
    destruct spectral_data; reflexivity.
  - rewrite slice_app_l by lia. destruct spectral_data; reflexivity.
Qed.

Lemma model_input_before_succ (n : nat) :
  (n < List.length (output st0))%nat ->
  model_input (before (Z.of_nat (S n)))
  = if Z.of_nat n <? receptive_field - 1
    then pad_start
           (attach_spectral spectral_data 0 (Z.of_nat n + 1) (rows (Z.of_nat (S n))))
    else attach_spectral spectral_data (Z.of_nat n + 1 - receptive_field) (Z.of_nat n + 1)
           (slice (rows (Z.of_nat (S n))) (Z.of_nat n + 1 - receptive_field)
              (Z.of_nat n + 1)).
Proof.
  intros Hn.
  pose proof (output_before (S n) ltac:(lia)) as Hout.
  rewrite state_before_succ in Hout. rewrite state_before_succ.
  unfold generate_step in *. cbn [output model_input] in *.
  rewrite Hout. apply next_model_input_app; [lia|].
  rewrite generated_rows_length. lia.
Qed.

(** The windows of a step, read off the rows generated before it. *)
Lemma window_shape (t : Z) :
  let n := Z.of_nat (List.length (output st0)) in
  1 <= receptive_field -> spectral_rows spectral_data n ->
  List.length (model_input st0) = 1%nat -> zero_row (hd [] (model_input st0)) ->
  0 <= t < n ->
  List.length (model_input (before t)) = Z.to_nat (Z.min (t + 1) receptive_field)
  /\ (t < receptive_field ->
      zero_row (hd [] (model_input (before t)))
      /\ tl (model_input (before t)) = attach_spectral spectral_data 0 t (rows t))
  /\ (receptive_field <= t ->
      model_input (before t)
      = attach_spectral spectral_data (t - receptive_field) t
          (slice (rows t) (t - receptive_field) t)).
Proof.
  intros n HR Hsp Hlen0 Hzero Ht.
  rewrite <- (Z2Nat.id t) in * by lia.
  destruct (Z.to_nat t) as [|m] eqn:Em.
  - change (before (Z.of_nat 0)) with st0. split; [|split].
    + rewrite Hlen0. lia.
    + intros _. split; [exact Hzero|].
      destruct (model_input st0) as [|r [|r' l]]; simpl in Hlen0; try discriminate.
      destruct spectral_data; reflexivity.
    + intros Hc. simpl in Hc. lia.
  - assert (Hm : (m < List.length (output st0))%nat) by lia.
    rewrite (model_input_before_succ m Hm).
    replace (Z.of_nat m + 1) with (Z.of_nat (S m)) by lia.
    assert (Hrows : List.length (rows (Z.of_nat (S m))) = Z.to_nat (Z.of_nat (S m) - 0))
      by (rewrite generated_rows_length; lia).
    destruct (Z.ltb_spec (Z.of_nat m) (receptive_field - 1)) as [Hlt|Hge];
      (split; [|split]).
    + unfold pad_start. cbn [List.length].
      rewrite (attach_spectral_length _ _ _ n) by (assumption || lia). lia.
    + intros _. split; [apply pad_start_zero_row | reflexivity].
    + intros Hc. lia.
    + rewrite (attach_spectral_length _ _ _ n); try assumption; try lia.
      rewrite slice_length; [lia | lia |]. rewrite generated_rows_length. lia.
    + intros Hc. lia.
    + intros _. reflexivity.
Qed.

End TraceFacts.

(** ** The loop with and without the GUI *)

Section LoopFacts.

Variable generator : Generator.
Variable receptive_field : Z.
Variable label_data : Array.
Variable model_type : Z.
Variable spectral_data : option Array.
Variable audio_length : Z.

Local Abbreviation loop :=
  (inference_loop generator receptive_field label_data model_type spectral_data
     audio_length).
Local Abbreviation step :=
  (generate_step generator receptive_field label_data spectral_data).
Local Abbreviation run :=
  (run_steps generator receptive_field label_data spectral_data).

Lemma step_same_arrays (i : Z) (st1 st2 : LoopState) :
  same_arrays st1 st2 -> same_arrays (step i st1) (step i st2).
Proof.
  intros [Hm Ho]. unfold same_arrays, generate_step. cbn [model_input output].
  rewrite Hm, Ho. split; reflexivity.
Qed.

Lemma run_same_arrays (steps : list Z) (st1 st2 : LoopState) :
  same_arrays st1 st2 -> same_arrays (run steps st1) (run steps st2).
Proof.
  revert st1 st2. induction steps as [|i steps IH]; intros st1 st2 H.
  - exact H.
  - apply (IH (step i st1) (step i st2)). apply step_same_arrays. exact H.
Qed.

(** A run in which no step reads the flag as set goes through all its
    steps, and generates what [run_steps] generates. *)
Lemma loop_completes (steps : list Z) (st : LoopState) :
  (forall gui, gen_gui st = Some gui ->
     forall i, In i steps -> kill_signal gui i = false) ->
  exists st', loop steps st = Completed st' /\ same_arrays st' (run steps st).
Proof.
  revert st. induction steps as [|i steps IH]; intros st Hkill.
  - exists st. split; [reflexivity | split; reflexivity].
  - cbn [inference_loop]. change (gen_gui (step i st)) with (gen_gui st).
    destruct (gen_gui st) as [gui|] eqn:Hg.
    + rewrite (Hkill gui eq_refl i (or_introl eq_refl)).
      destruct (IH {| model_input := model_input (step i st);
                      output := output (step i st);
                      gen_gui := Some (report_progress model_type audio_length i gui) |})
        as (st' & Hloop & Hsame).
      * intros gui' Hg' j Hj. cbn [gen_gui] in Hg'. injection Hg' as <-.
        apply (Hkill gui eq_refl j). right. exact Hj.
      * exists st'. split; [exact Hloop|].
        destruct Hsame as [Hm Ho].
        destruct (run_same_arrays steps
                    {| model_input := model_input (step i st);
                       output := output (step i st);
                       gen_gui := Some (report_progress model_type audio_length i gui) |}
                    (step i st) (conj eq_refl eq_refl)) as [Hm' Ho'].
        split; [rewrite Hm | rewrite Ho]; assumption.
    + destruct (IH (step i st)) as (st' & Hloop & Hsame).
      * intros gui' Hg'. change (gen_gui (step i st)) with (gen_gui st) in Hg'.
        rewrite Hg in Hg'. discriminate.
      * exists st'. split; assumption.
Qed.

(** A run in which some step reads the flag as set ends on [return None]. *)
Lemma loop_killed (steps : list Z) (st : LoopState) (gui : GenGui) :
  gen_gui st = Some gui ->
  (exists i, In i steps /\ kill_signal gui i = true) ->
  exists gui', loop steps st = Killed gui'.
Proof.
  revert st gui. induction steps as [|i steps IH]; intros st gui Hg (j & Hj & Hkj).
  - destruct Hj.
  - cbn [inference_loop]. change (gen_gui (step i st)) with (gen_gui st). rewrite Hg.
    destruct (kill_signal gui i) eqn:Hki.
    + exists gui. reflexivity.
    + apply (IH _ (report_progress model_type audio_length i gui)); [reflexivity|].
      exists j. split; [|exact Hkj].
      destruct Hj as [<- | Hj]; [congruence | exact Hj].
Qed.

End LoopFacts.

Lemma initial_state_fields (self : SingingModel) (gui : option GenGui)
    (label_data : Array) (model_type : Z) :
  let st0 := initial_state self gui label_data model_type in
  gen_gui st0 = gui
  /\ List.length (output st0) = List.length label_data
  /\ List.length (model_input st0) = 1%nat
  /\ zero_row (hd [] (model_input st0)).
Proof.
  unfold initial_state. destruct (channel_counts self model_type) as [channels init_channels].
  cbn [gen_gui output model_input]. repeat split.
  - rewrite zeros_length, Nat2Z.id. reflexivity.
  - unfold zeros, zero_row. simpl. apply Forall_forall.
    intros q Hq. apply repeat_spec in Hq. exact Hq.
Qed.

(** ** inference *)

(** A run that is not cancelled returns the rows it generated. *)
Lemma inference_completes (env : Env) (model_path : string) (self : SingingModel)
    (gui : option GenGui) (label_data : Array) (model_type : Z)
    (spectral_data : option Array) (generator : Generator) :
  let receptive_field := get_receptive_field self model_type in
  let n := Z.of_nat (List.length label_data) in
  let st0 := initial_state self gui label_data model_type in
  get_generator env model_path self model_type = Returned generator ->
  (forall g, gui = Some g -> forall i, 0 <= i < n -> kill_signal g i = false) ->
  exists r,
    inference env model_path self gui label_data model_type spectral_data = Returned r
    /\ returned r
       = Some (generated_rows generator receptive_field label_data spectral_data st0 n).
Proof.
  intros receptive_field n st0 Hgen Hkill.
  destruct (initial_state_fields self gui label_data model_type) as (Hg & Hlen & _ & _).
  fold st0 in Hg, Hlen.
  destruct (loop_completes generator receptive_field label_data model_type
              spectral_data n (range n) st0) as (st' & Hloop & _ & Hout).
  { intros g Hg' i Hi. rewrite Hg in Hg'. apply (Hkill g Hg'). apply in_range. exact Hi. }
  unfold inference. rewrite Hgen. cbv zeta. fold receptive_field n st0. rewrite Hloop.
  eexists. split; [reflexivity|]. cbn [returned]. rewrite Hout.
  fold (state_before generator receptive_field label_data spectral_data st0 n).
  unfold n. rewrite output_before by lia.
  rewrite skipn_all2 by lia. rewrite app_nil_r. reflexivity.
Qed.

(** C5, as the code has it. In a run over N label rows with receptive field
    R >= 1, step t is fed the label slice [max(0, t+1-R), t+1) and an input
    window of the same length min(t+1, R), which grows by one row per step
    until it reaches R. While t < R the window is one row of zeros followed
    by the t rows generated so far; from t = R on it is the slice of the last
    R generated rows, with no padding. Each step appends the row the
    generator returns on these two windows, and a run that is not cancelled
    returns the N generated rows. *)
Theorem inference_windows (env : Env) (model_path : string) (self : SingingModel)
    (gui : option GenGui) (label_data : Array) (model_type : Z)
    (spectral_data : option Array) (generator : Generator) :
  let receptive_field := get_receptive_field self model_type in
  let n := Z.of_nat (List.length label_data) in
  let st0 := initial_state self gui label_data model_type in
  let window t :=
    model_input (state_before generator receptive_field label_data spectral_data st0 t) in
  let previous t :=
    generated_rows generator receptive_field label_data spectral_data st0 t in
  1 <= receptive_field ->
  spectral_rows spectral_data n ->
  get_generator env model_path self model_type = Returned generator ->
  (forall g, gui = Some g -> forall i, 0 <= i < n -> kill_signal g i = false) ->
  (forall t, 0 <= t < n ->
     label_window receptive_field label_data t
     = slice label_data (Z.max 0 (t + 1 - receptive_field)) (t + 1)
     /\ List.length (label_window receptive_field label_data t)
        = Z.to_nat (Z.min (t + 1) receptive_field)
     /\ List.length (window t) = Z.to_nat (Z.min (t + 1) receptive_field)
     /\ (t < receptive_field ->
         zero_row (hd [] (window t))
         /\ tl (window t) = attach_spectral spectral_data 0 t (previous t))
     /\ (receptive_field <= t ->
         window t
         = attach_spectral spectral_data (t - receptive_field) t
             (slice (previous t) (t - receptive_field) t))
     /\ previous (t + 1)
        = previous t ++ [generator t (window t) (label_window receptive_field label_data t)])
  /\ exists r,
       inference env model_path self gui label_data model_type spectral_data = Returned r
       /\ returned r = Some (previous n)
       /\ List.length (previous n) = List.length label_data.
Proof.
  intros receptive_field n st0 window previous HR Hsp Hgen Hkill.
  destruct (initial_state_fields self gui label_data model_type) as (Hg & Hlen & Hlen0 & Hz).
  fold st0 in Hg, Hlen, Hlen0, Hz.
  split.
  - intros t Ht.
    assert (Ht' : 0 <= t < Z.of_nat (List.length (output st0))) by (rewrite Hlen; exact Ht).
    destruct (window_shape generator receptive_field label_data spectral_data st0 t
                HR ltac:(rewrite Hlen; exact Hsp) Hlen0 Hz Ht') as (Hwl & Hpad & Hfull).
    split; [apply label_window_slice|].
    split; [rewrite label_window_slice, slice_length by lia; lia|].
    split; [exact Hwl|]. split; [exact Hpad|]. split; [exact Hfull|].
    unfold previous. rewrite <- (Z2Nat.id t) at 1 2 by lia.
    replace (Z.of_nat (Z.to_nat t) + 1) with (Z.of_nat (S (Z.to_nat t))) by lia.
    rewrite generated_rows_succ. rewrite Z2Nat.id by lia. reflexivity.
  - destruct (inference_completes env model_path self gui label_data model_type
                spectral_data generator Hgen Hkill) as (r & Hr & Hret).
    exists r. split; [exact Hr|]. split; [exact Hret|].
    unfold previous. rewrite generated_rows_length. unfold n. apply Nat2Z.id.
Qed.

Lemma inference_windows_witness :
  let self := uniform_model (arch 1 1 1 3) in
  let labels := sample_labels 5 in
  exists r,
    inference sample_env "m" self None labels 2 None = Returned r
    /\ returned r
       = Some (generated_rows counting_generator (get_receptive_field self 2) labels None
                 (initial_state self None labels 2) (Z.of_nat (List.length labels)))
    /\ List.length
         (generated_rows counting_generator (get_receptive_field self 2) labels None
            (initial_state self None labels 2) (Z.of_nat (List.length labels)))
       = List.length labels.
Proof.
  intros self labels.
  refine (proj2 (inference_windows sample_env "m" self None labels 2 None
                   counting_generator _ _ _ _)).
  - vm_compute. discriminate.
  - exact I.
  - reflexivity.
  - intros g Hg. discriminate Hg.
Defined.

(** C5, counterexample: with receptive field 3 the input windows of steps
    0, 1, 2 have 1, 2 and 3 rows; the shape of the input is not the same
    from step to step. *)
Lemma input_window_shape_not_stable :
  let self := uniform_model (arch 1 1 1 3) in
  let labels := sample_labels 3 in
  let window t :=
    model_input (state_before counting_generator (get_receptive_field self 2) labels None
                   (initial_state self None labels 2) t) in
  get_receptive_field self 2 = 3
  /\ map (fun t => List.length (window t)) (range 3) = [1; 2; 3]%nat
  /\ List.length (window 0) <> List.length (window 1).
Proof.
  cbv zeta. split; [reflexivity|]. split; [reflexivity|]. vm_compute. discriminate.
Qed.

(** C7. With the GUI attached and [spectral_data], when given, long enough
    for the run (so that no [np.concatenate] fails), if the flag is read as
    set at the end of some step of the run, [inference] returns None, not an
    output array; a run over an empty label sequence returns the empty
    array, whatever the flag. *)
Theorem inference_cancelled (env : Env) (model_path : string) (self : SingingModel)
    (gui : GenGui) (label_data : Array) (model_type : Z)
    (spectral_data : option Array) (generator : Generator) :
  let n := Z.of_nat (List.length label_data) in
  spectral_rows spectral_data n ->
  get_generator env model_path self model_type = Returned generator ->
  ((exists i, 0 <= i < n /\ kill_signal gui i = true) ->
   exists r,
     inference env model_path self (Some gui) label_data model_type spectral_data
     = Returned r
     /\ returned r = None)
  /\ (label_data = [] ->
      exists r,
        inference env model_path self (Some gui) label_data model_type spectral_data
        = Returned r
        /\ returned r = Some []).
Proof.
  intros n _ Hgen. split.
  - intros (i & Hi & Hk).
    destruct (initial_state_fields self (Some gui) label_data model_type) as (Hg & _).
    destruct (loop_killed generator (get_receptive_field self model_type) label_data
                model_type spectral_data n (range n)
                (initial_state self (Some gui) label_data model_type) gui Hg)
      as (gui' & Hloop).
    { exists i. split; [apply in_range; exact Hi | exact Hk]. }
    unfold inference. rewrite Hgen. cbv zeta. fold n. rewrite Hloop.
    eexists. split; reflexivity.
  - intros ->. unfold inference. rewrite Hgen. cbv zeta.
    unfold initial_state. destruct (channel_counts self model_type) as [channels init_channels].
    eexists. split; reflexivity.
Qed.

Lemma inference_cancelled_witness :
  exists r,
    inference sample_env "m" (uniform_model (arch 1 1 1 3)) (Some (gui_killed_from 5))
      (sample_labels 100) 2 None = Returned r
    /\ returned r = None.
Proof.
  refine (proj1 (inference_cancelled sample_env "m" (uniform_model (arch 1 1 1 3))
                   (gui_killed_from 5) (sample_labels 100) 2 None counting_generator _ _) _).
  - exact I.
  - reflexivity.
  - exists 5. split; [vm_compute; split; [discriminate | reflexivity] | reflexivity].
Defined.

(** C9. With [spectral_data], when given, long enough for the run, a run
    with the GUI attached in which the flag is never read as set and a run
    without the GUI, on the same generator and draws, return the same output
    array (or both end on the same missing checkpoint): the widget writes
    change neither the course of the loop nor the rows. *)
Theorem inference_gui_independent (env : Env) (model_path : string) (self : SingingModel)
    (gui : GenGui) (label_data : Array) (model_type : Z) (spectral_data : option Array) :
  let n := Z.of_nat (List.length label_data) in
  spectral_rows spectral_data n ->
  (forall i, 0 <= i < n -> kill_signal gui i = false) ->
  match inference env model_path self (Some gui) label_data model_type spectral_data,
        inference env model_path self None label_data model_type spectral_data with
  | Returned r1, Returned r2 =>
      returned r1 = returned r2
      /\ exists out, returned r2 = Some out /\ List.length out = List.length label_data
  | SysExit msg1, SysExit msg2 => msg1 = msg2
  | _, _ => False
  end.
Proof.
  intros n _ Hkill.
  destruct (get_generator env model_path self model_type) as [msg|generator] eqn:Hgen.
  - unfold inference. rewrite Hgen. reflexivity.
  - destruct (inference_completes env model_path self (Some gui) label_data model_type
                spectral_data generator Hgen) as (r1 & Hr1 & Hret1).
    { intros g Hg. injection Hg as <-. exact Hkill. }
    destruct (inference_completes env model_path self None label_data model_type
                spectral_data generator Hgen) as (r2 & Hr2 & Hret2).
    { intros g Hg. discriminate Hg. }
    rewrite Hr1, Hr2, Hret1, Hret2. split.
    + f_equal. unfold generated_rows. apply map_ext. intros t.
      unfold generated_row, state_before. f_equal.
      apply (run_same_arrays generator (get_receptive_field self model_type) label_data
               spectral_data (range t)).
      unfold same_arrays, initial_state.
      destruct (channel_counts self model_type). split; reflexivity.
    + eexists. split; [reflexivity|].
      rewrite generated_rows_length. apply Nat2Z.id.
Qed.

Lemma inference_gui_independent_witness :
  match inference sample_env "m" (uniform_model (arch 1 1 1 3)) (Some (gui_killed_from 9))
          (sample_labels 5) 2 None,
        inference sample_env "m" (uniform_model (arch 1 1 1 3)) None
          (sample_labels 5) 2 None with
  | Returned r1, Returned r2 =>
      returned r1 = returned r2
      /\ exists out, returned r2 = Some out
           /\ List.length out = List.length (sample_labels 5)
  | SysExit msg1, SysExit msg2 => msg1 = msg2
  | _, _ => False
  end.
Proof.
  refine (inference_gui_independent sample_env "m" (uniform_model (arch 1 1 1 3))
            (gui_killed_from 9) (sample_labels 5) 2 None I _).
  intros i Hi. apply Z.leb_gt. change (Z.of_nat (List.length (sample_labels 5))) with 5 in Hi.
  lia.
Defined.

(* ===================================================================== *)
(** * Part III. Further properties of the code                             *)
(* ===================================================================== *)

(** ** get_receptive_field: closed form and degenerate stacks *)

(** X1. With at least one block and one level, [get_receptive_field] is
    init_kernel + (kernel - 1) * ((blocks - 1) * (2^levels - 1)
    + 2^(levels - 1) - 1). *)
Theorem get_receptive_field_closed_form (self : SingingModel) (model_type : Z) :
  let p := select_params self model_type in
  1 <= blocks p -> 1 <= levels p ->
  get_receptive_field self model_type
  = init_kernel p
    + (kernel p - 1) * ((blocks p - 1) * (2 ^ levels p - 1) + (2 ^ (levels p - 1) - 1)).
Proof.
  intros p Hb Hl. unfold get_receptive_field. fold p.
  rewrite receptive_field_closed by assumption. reflexivity.
Qed.

Lemma get_receptive_field_closed_form_witness :
  get_receptive_field (uniform_model (arch 3 4 5 2)) 1
  = 2 + (5 - 1) * ((4 - 1) * (2 ^ 3 - 1) + (2 ^ (3 - 1) - 1)).
Proof.
  apply (get_receptive_field_closed_form (uniform_model (arch 3 4 5 2)) 1); simpl; lia.
Defined.

(** X2. A stack without an effective dilated layer sees only the initial
    kernel: with kernel = 1, or no block, or no level, or a single block of
    a single level, [get_receptive_field] is init_kernel. *)
Theorem get_receptive_field_degenerate (self : SingingModel) (model_type : Z) :
  let p := select_params self model_type in
  kernel p = 1 \/ blocks p <= 0 \/ levels p <= 0 \/ (blocks p = 1 /\ levels p = 1) ->
  get_receptive_field self model_type = init_kernel p.
Proof.
  intros p H. unfold get_receptive_field. fold p.
  rewrite receptive_field_of_spec. unfold spec_receptive_field.
  rewrite (Zsum_map_const _ 0); [lia|].
  intros b Hb. apply in_range in Hb.
  destruct H as [Hk | [Hb0 | [Hl | [Hb1 Hl1]]]].
  - rewrite (Zsum_map_const _ 0); [lia|]. intros j _. rewrite Hk. lia.
  - lia.
  - rewrite range_nonpos; [reflexivity|]. unfold spec_levels_in_block.
    destruct (b =? blocks p - 1); lia.
  - rewrite range_nonpos; [reflexivity|]. unfold spec_levels_in_block.
    replace (b =? blocks p - 1) with true by (symmetry; apply Z.eqb_eq; lia). lia.
Qed.

Lemma get_receptive_field_degenerate_witness :
  get_receptive_field (uniform_model (arch 1 1 7 3)) 0 = 3.
Proof.
  apply (get_receptive_field_degenerate (uniform_model (arch 1 1 7 3)) 0).
  right. right. right. split; reflexivity.
Defined.

(** ** build_model: the shape of the dilated stack *)




(** ** build_model: layer names *)

Lemma string_of_uint_digits (d : Decimal.uint) :
  all_digits (NilEmpty.string_of_uint d) = true.
Proof. induction d; simpl; try reflexivity; exact IHd. Qed.

(** [str] of a non-negative int is a string of digits. *)
Lemma str_digits (n : Z) : 0 <= n -> all_digits (str n) = true.
Proof.
  intros Hn. unfold str. destruct n as [|p|p]; [reflexivity | | lia].
  simpl. unfold NilZero.string_of_uint.
  destruct (Pos.to_uint p) eqn:E; try (rewrite <- E; apply string_of_uint_digits).
  reflexivity.
Qed.

(** [str] never gives two ints the same numeral. *)
Lemma str_inj (a b : Z) : str a = str b -> a = b.
Proof.
  unfold str. intros H.
  assert (Hnil : forall z, Z.to_int z <> Decimal.Pos Decimal.Nil
                           /\ Z.to_int z <> Decimal.Neg Decimal.Nil).
  { intros [|p|p]; simpl; split; try discriminate;
      intros E; injection E as E; exact (DecimalPos.Unsigned.to_uint_nonnil p E). }
  assert (E : Some (Z.to_int a) = Some (Z.to_int b)).
  { rewrite <- (NilZero.isi (Z.to_int a)) by apply Hnil.
    rewrite <- (NilZero.isi (Z.to_int b)) by apply Hnil.
    rewrite H. reflexivity. }
  injection E as E. rewrite <- (DecimalZ.of_to a), <- (DecimalZ.of_to b), E. reflexivity.
Qed.

(** A numeral followed by a character that is no digit ends where that
    character stands. *)
Lemma digits_then_mark (s1 s2 t1 t2 : string) (c : Ascii.ascii) :
  all_digits s1 = true -> all_digits s2 = true -> is_digit c = false ->
  (s1 ++ String c t1 = s2 ++ String c t2)%string -> s1 = s2 /\ t1 = t2.
Proof.
  revert s2. induction s1 as [|a s1 IH]; intros [|b s2] H1 H2 Hc E; simpl in *.
  - injection E as E. split; [reflexivity | exact E].
  - injection E as Ec E. subst b. apply andb_true_iff in H2. destruct H2 as [H2 _].
    congruence.
  - injection E as Ec E. subst a. apply andb_true_iff in H1. destruct H1 as [H1 _].
    congruence.
  - injection E as Eab E. apply andb_true_iff in H1. apply andb_true_iff in H2.
    destruct (IH s2 (proj2 H1) (proj2 H2) Hc E) as [-> ->]. subst b.
    split; reflexivity.
Qed.

(** Two layers at different places of the stack get different names. *)
Lemma layer_name_inj (i j i' j' : Z) :
  0 <= i -> 0 <= i' -> layer_name i j = layer_name i' j' -> i = i' /\ j = j'.
Proof.
  intros Hi Hi' E. unfold layer_name in E.
  cbn [String.append] in E.
  repeat (injection E as E).
  apply digits_then_mark in E;
    [ | apply str_digits; assumption | apply str_digits; assumption | reflexivity].
  destruct E as [Ei Ej].
  repeat (injection Ej as Ej).
  split; apply str_inj; assumption.
Qed.

Lemma iteration_name_inj (prefix : string) (c c' : DilatedConv) :
  0 <= conv_block c -> 0 <= conv_block c' ->
  iteration_name prefix c = iteration_name prefix c' ->
  conv_block c = conv_block c' /\ conv_level c = conv_level c'.
Proof.
  intros Hc Hc' E. apply layer_name_inj; try assumption.
  unfold iteration_name in E. induction prefix as [|a prefix IH]; simpl in E.
  - exact E.
  - injection E as E. apply IH. exact E.
Qed.

Lemma NoDup_flat_map {A B : Type} (g : A -> list B) (l : list A) :
  NoDup l -> (forall a, In a l -> NoDup (g a)) ->
  (forall a a' x, In a l -> In a' l -> In x (g a) -> In x (g a') -> a = a') ->
  NoDup (flat_map g l).
Proof.
  induction 1 as [|a l Ha Hl IH]; intros Hg Hdis; simpl; [constructor|].
  apply NoDup_app.
  - apply Hg. left. reflexivity.
  - apply IH.
    + intros a' Ha'. apply Hg. right. exact Ha'.
    + intros a1 a2 x H1 H2. apply Hdis; right; assumption.
  - intros x Hx Hx'. apply in_flat_map in Hx'. destruct Hx' as (a' & Ha' & Hx').
    assert (a = a') by (apply (Hdis a a' x); [left; reflexivity | right; exact Ha' | exact Hx | exact Hx']).
    subst a'. contradiction.
Qed.

Lemma NoDup_range (n : Z) : NoDup (range n).
Proof.
  unfold range. generalize (seq_NoDup (Z.to_nat n) 0).
  induction 1 as [|x l Hx Hl IH]; simpl; constructor; [|exact IH].
  rewrite in_map_iff. intros (y & E & Hy). apply Nat2Z.inj in E. subst y. contradiction.
Qed.

(** X4. Under each prefix, the names [build_model] gives to the layers of
    its iterations are all different: no two layers of a kind share a
    name. *)
Theorem build_model_names_distinct (prefix : string) (m_params : MParams) :
  NoDup (map (iteration_name prefix) (build_model_dilated m_params)).
Proof.
  rewrite build_model_dilated_layers, flat_map_concat_map, concat_map, map_map.
  rewrite <- flat_map_concat_map.
  apply NoDup_flat_map.
  - apply NoDup_range.
  - intros b Hb. apply in_range in Hb. rewrite map_map.
    generalize (NoDup_range (spec_levels_in_block m_params b)).
    induction 1 as [|j l Hj Hl IH]; simpl; constructor; [|exact IH].
    rewrite in_map_iff. intros (j' & E & Hj').
    apply iteration_name_inj in E; cbn [conv_block conv_level] in *; try lia.
    destruct E as [_ ->]. contradiction.
  - intros b b' x Hb Hb' Hx Hx'. apply in_range in Hb. apply in_range in Hb'.
    rewrite map_map in Hx, Hx'.
    apply in_map_iff in Hx. destruct Hx as (j & <- & _).
    apply in_map_iff in Hx'. destruct Hx' as (j' & E & _).
    apply iteration_name_inj in E; cbn [conv_block conv_level] in *; lia.
Qed.

(** ** sample_output: the selection as an inverse CDF *)







(** ** lr_scheduler under the callback: how the rate decays *)






(** ** train_model and get_generator *)

(** X10. For every [model_type], the file [train_model] checkpoints to is
    the file [get_generator] looks for: if it exists the generator is loaded
    from it with the variant's temperature, and if not [get_generator] ends
    the process with a message that names it. *)
Theorem train_and_generate_share_checkpoint {G : Type} (env : Env)
    (isdir : string -> bool) (harmonic_len : Z -> Z) (frequency_len : Z)
    (model_path : string) (self : SingingModel) (train_gui : option G)
    (model_type : Z) (load : bool) (epochs_arg : Z) :
  exists model_loc,
    checkpoint_file
      (train_model env isdir harmonic_len frequency_len model_path self train_gui
         model_type load epochs_arg) = Some model_loc
    /\ get_generator env model_path self model_type
       = if isfile env model_loc
         then Returned (load_generator env model_loc (temp (select_params self model_type)))
         else SysExit ("Cannot find model :" ++ model_loc).
Proof.
  unfold train_model, get_generator, select_params, checkpoint_file.
  destruct (model_type =? 2), (model_type =? 0), (model_type =? 1);
    eexists; (split;
      [ destruct train_gui; cbv zeta beta iota;
        repeat match goal with |- context [if ?b then _ else _] => destruct b end;
        reflexivity
      | cbv zeta beta iota;
        match goal with |- context [isfile env ?l] => destruct (isfile env l) end;
        reflexivity ]).
Qed.






(** ** inference: when it returns None *)

(** X13. With the checkpoint present and [spectral_data], when given, long
    enough for the run, [inference] returns None exactly when a GUI is
    attached and some step of the run reads its flag as set; in every other
    run it returns an array. *)
Theorem inference_none_iff (env : Env) (model_path : string) (self : SingingModel)
    (gui : option GenGui) (label_data : Array) (model_type : Z)
    (spectral_data : option Array) (generator : Generator) :
  let n := Z.of_nat (List.length label_data) in
  spectral_rows spectral_data n ->
  get_generator env model_path self model_type = Returned generator ->
  exists r,
    inference env model_path self gui label_data model_type spectral_data = Returned r
    /\ (returned r = None
        <-> exists g i, gui = Some g /\ 0 <= i < n /\ kill_signal g i = true).
Proof.
  intros n _ Hgen.
  destruct gui as [g|].
  - destruct (existsb (kill_signal g) (range n)) eqn:Hex.
    + apply existsb_exists in Hex. destruct Hex as (i & Hi & Hk). apply in_range in Hi.
      destruct (initial_state_fields self (Some g) label_data model_type) as (Hg & _).
      destruct (loop_killed generator (get_receptive_field self model_type) label_data
                  model_type spectral_data n (range n)
                  (initial_state self (Some g) label_data model_type) g Hg)
        as (g' & Hloop).
      { exists i. split; [apply in_range; exact Hi | exact Hk]. }
      unfold inference. rewrite Hgen. cbv zeta. fold n. rewrite Hloop.
      eexists. split; [reflexivity|]. cbn [returned]. split; [|reflexivity].
      intros _. exists g, i. repeat split; try assumption; apply Hi.
    + destruct (inference_completes env model_path self (Some g) label_data model_type
                  spectral_data generator Hgen) as (r & Hr & Hret).
      { intros g' Hg' i Hi. injection Hg' as <-.
        destruct (kill_signal g i) eqn:Hk; [|reflexivity].
        assert (Ht : existsb (kill_signal g) (range n) = true)
          by (apply existsb_exists; exists i; split; [apply in_range; exact Hi | exact Hk]).
        fold n in Ht. congruence. }
      exists r. split; [exact Hr|]. rewrite Hret. split; [discriminate|].
      intros (g' & i & Hg' & Hi & Hk). injection Hg' as <-.
      assert (Ht : existsb (kill_signal g) (range n) = true)
        by (apply existsb_exists; exists i; split; [apply in_range; exact Hi | exact Hk]).
      congruence.
  - destruct (inference_completes env model_path self None label_data model_type
                spectral_data generator Hgen) as (r & Hr & Hret).
    { intros g Hg. discriminate Hg. }
    exists r. split; [exact Hr|]. rewrite Hret. split; [discriminate|].
    intros (g & i & Hg & _). discriminate Hg.
Qed.

Lemma inference_none_iff_witness :
  exists r,
    inference sample_env "m" (uniform_model (arch 1 1 1 3)) (Some (gui_killed_from 2))
      (sample_labels 4) 2 None = Returned r
    /\ (returned r = None
        <-> exists g i, Some (gui_killed_from 2) = Some g
              /\ 0 <= i < Z.of_nat (List.length (sample_labels 4))
              /\ kill_signal g i = true).
Proof.
  apply (inference_none_iff sample_env "m" (uniform_model (arch 1 1 1 3))
           (Some (gui_killed_from 2)) (sample_labels 4) 2 None counting_generator I).
  reflexivity.
Defined.

(** ** inference: a longer label sequence does not change the rows before *)

Lemma label_window_app (receptive_field : Z) (l1 l2 : Array) (i : Z) :
  0 <= i < Z.of_nat (List.length l1) ->
  label_window receptive_field (l1 ++ l2) i = label_window receptive_field l1 i.
Proof.
  intros Hi. rewrite !label_window_slice. apply slice_app_l; lia.
Qed.

Lemma firstn_seq_le (s k n : nat) : (k <= n)%nat -> firstn k (seq s n) = seq s k.
Proof.
  revert s n. induction k as [|k IH]; intros s [|n] H; simpl; try reflexivity; try lia.
  rewrite IH by lia. reflexivity.
Qed.

Lemma firstn_range (k n : Z) : 0 <= k <= n -> firstn (Z.to_nat k) (range n) = range k.
Proof.
  intros H. unfold range. rewrite firstn_map, firstn_seq_le by lia. reflexivity.
Qed.

Section Prefix.

Variable generator : Generator.
Variable receptive_field : Z.
Variable l1 l2 : Array.
Variable spectral_data : option Array.
Variable st1 st12 : LoopState.

Hypothesis Hinput : model_input st1 = model_input st12.
Hypothesis Hlen1 : List.length (output st1) = List.length l1.
Hypothesis Hlen12 : List.length (output st12) = List.length (l1 ++ l2).

(** Step by step, the run over [l1 ++ l2] feeds the generator what the run
    over [l1] feeds it, and gets the same rows. *)
Lemma prefix_run (n : nat) :
  (n <= List.length l1)%nat ->
  generated_rows generator receptive_field (l1 ++ l2) spectral_data st12 (Z.of_nat n)
  = generated_rows generator receptive_field l1 spectral_data st1 (Z.of_nat n)
  /\ model_input
       (state_before generator receptive_field (l1 ++ l2) spectral_data st12 (Z.of_nat n))
     = model_input (state_before generator receptive_field l1 spectral_data st1 (Z.of_nat n)).
Proof.
  induction n as [|n IH]; intros Hn.
  - split; [reflexivity | symmetry; exact Hinput].
  - destruct (IH ltac:(lia)) as [Hrows Hmi].
    assert (Hrows' :
      generated_rows generator receptive_field (l1 ++ l2) spectral_data st12 (Z.of_nat (S n))
      = generated_rows generator receptive_field l1 spectral_data st1 (Z.of_nat (S n))).
    { rewrite !generated_rows_succ, Hrows. f_equal. f_equal.
      unfold generated_row. rewrite Hmi, label_window_app by lia. reflexivity. }
    split; [exact Hrows'|].
    rewrite !model_input_before_succ, Hrows'; [reflexivity | lia |].
    rewrite Hlen12, length_app. lia.
Qed.

End Prefix.

Lemma generated_rows_firstn (generator : Generator) (receptive_field : Z)
    (label_data : Array) (spectral_data : option Array) (st0 : LoopState) (k n : Z) :
  0 <= k <= n ->
  firstn (Z.to_nat k)
    (generated_rows generator receptive_field label_data spectral_data st0 n)
  = generated_rows generator receptive_field label_data spectral_data st0 k.
Proof.
  intros H. unfold generated_rows. rewrite firstn_map, firstn_range by exact H.
  reflexivity.
Qed.

(** X14. Rows already generated do not depend on the labels that follow:
    in runs that are not cancelled, with [spectral_data], when given, long
    enough for the longer run, the output for the label sequence [l1] is the
    first len(l1) rows of the output for [l1] followed by any [l2], the
    generator and its draws being the same. *)
Theorem inference_prefix (env : Env) (model_path : string) (self : SingingModel)
    (gui : option GenGui) (l1 l2 : Array) (model_type : Z)
    (spectral_data : option Array) (generator : Generator) :
  spectral_rows spectral_data (Z.of_nat (List.length (l1 ++ l2))) ->
  get_generator env model_path self model_type = Returned generator ->
  (forall g, gui = Some g ->
     forall i, 0 <= i < Z.of_nat (List.length (l1 ++ l2)) -> kill_signal g i = false) ->
  exists r1 r12 out1 out12,
    inference env model_path self gui l1 model_type spectral_data = Returned r1
    /\ inference env model_path self gui (l1 ++ l2) model_type spectral_data = Returned r12
    /\ returned r1 = Some out1 /\ returned r12 = Some out12
    /\ out1 = firstn (List.length l1) out12.
Proof.
  intros _ Hgen Hkill.
  destruct (inference_completes env model_path self gui l1 model_type
              spectral_data generator Hgen) as (r1 & Hr1 & Hret1).
  { intros g Hg i Hi. apply (Hkill g Hg). rewrite length_app. lia. }
  destruct (inference_completes env model_path self gui (l1 ++ l2) model_type
              spectral_data generator Hgen Hkill) as (r12 & Hr12 & Hret12).
  exists r1, r12. eexists. eexists.
  split; [exact Hr1|]. split; [exact Hr12|]. split; [exact Hret1|]. split; [exact Hret12|].
  destruct (initial_state_fields self gui l1 model_type) as (_ & Hl1 & _ & _).
  destruct (initial_state_fields self gui (l1 ++ l2) model_type) as (_ & Hl12 & _ & _).
  assert (Hin : model_input (initial_state self gui l1 model_type)
                = model_input (initial_state self gui (l1 ++ l2) model_type)).
  { unfold initial_state. destruct (channel_counts self model_type). reflexivity. }
  destruct (prefix_run generator (get_receptive_field self model_type) l1 l2 spectral_data
              (initial_state self gui l1 model_type)
              (initial_state self gui (l1 ++ l2) model_type) Hin Hl1 Hl12
              (List.length l1) (le_n _)) as [Hrows _].
  rewrite <- Hrows.
  rewrite <- (Nat2Z.id (List.length l1)) at 2.
  rewrite generated_rows_firstn; [reflexivity|].
  rewrite length_app. lia.
Qed.

Lemma inference_prefix_witness :
  exists r1 r12 out1 out12,
    inference sample_env "m" (uniform_model (arch 1 1 1 3)) None (sample_labels 2) 2 None
    = Returned r1
    /\ inference sample_env "m" (uniform_model (arch 1 1 1 3)) None
         (sample_labels 2 ++ sample_labels 3) 2 None = Returned r12
    /\ returned r1 = Some out1 /\ returned r12 = Some out12
    /\ out1 = firstn (List.length (sample_labels 2)) out12.
Proof.
  apply (inference_prefix sample_env "m" (uniform_model (arch 1 1 1 3)) None
           (sample_labels 2) (sample_labels 3) 2 None counting_generator).
  - exact I.
  - reflexivity.
  - intros g Hg. discriminate Hg.
Defined.

(** ** inference: what it writes to the GUI *)

Lemma other_widgets_set_bar_value (model_type v : Z) (g : GuiIds) :
  other_widgets model_type (set_bar_value model_type v g) = other_widgets model_type g.
Proof.
  unfold other_widgets, set_bar_value.
  destruct (model_type =? 0); [reflexivity|]. destruct (model_type =? 1); reflexivity.
Qed.

Lemma other_widgets_set_status_text (model_type : Z) (t : string) (g : GuiIds) :
  other_widgets model_type (set_status_text model_type t g) = other_widgets model_type g.
Proof.
  unfold other_widgets, set_status_text.
  destruct (model_type =? 0); [reflexivity|]. destruct (model_type =? 1); reflexivity.
Qed.

Lemma bar_value_set_bar_value (model_type v : Z) (g : GuiIds) :
  bar_value model_type (set_bar_value model_type v g) = v.
Proof.
  unfold bar_value, set_bar_value.
  destruct (model_type =? 0); [reflexivity|]. destruct (model_type =? 1); reflexivity.
Qed.

Lemma bar_value_set_status_text (model_type : Z) (t : string) (g : GuiIds) :
  bar_value model_type (set_status_text model_type t g) = bar_value model_type g.
Proof.
  unfold bar_value, set_status_text.
  destruct (model_type =? 0); [reflexivity|]. destruct (model_type =? 1); reflexivity.
Qed.

Lemma status_text_set_status_text (model_type : Z) (t : string) (g : GuiIds) :
  status_text model_type (set_status_text model_type t g) = t.
Proof.
  unfold status_text, set_status_text.
  destruct (model_type =? 0); [reflexivity|]. destruct (model_type =? 1); reflexivity.
Qed.

(** One progress report: the bar takes the percentage of the step, the
    status line quotes it, nothing else changes. *)
Lemma report_progress_widgets (model_type audio_length i : Z) (gui : GenGui) :
  let gui' := report_progress model_type audio_length i gui in
  kill_signal gui' = kill_signal gui
  /\ other_widgets model_type (ids gui') = other_widgets model_type (ids gui)
  /\ bar_value model_type (ids gui') = int_percent i audio_length
  /\ status_text model_type (ids gui')
     = (model_status_type model_type ++ " progress: "
        ++ str (int_percent i audio_length) ++ "%")%string.
Proof.
  unfold report_progress. cbn [kill_signal ids].
  rewrite other_widgets_set_status_text, other_widgets_set_bar_value.
  rewrite bar_value_set_status_text, status_text_set_status_text, !bar_value_set_bar_value.
  repeat split; reflexivity.
Qed.

Section LoopWidgets.

Variable generator : Generator.
Variable receptive_field : Z.
Variable label_data : Array.
Variable model_type : Z.
Variable spectral_data : option Array.
Variable audio_length : Z.

Local Abbreviation loop :=
  (inference_loop generator receptive_field label_data model_type spectral_data
     audio_length).
Local Abbreviation step :=
  (generate_step generator receptive_field label_data spectral_data).

(** The loop over a list of steps followed by another. *)
Lemma loop_app (s1 s2 : list Z) (st : LoopState) :
  loop (s1 ++ s2) st
  = match loop s1 st with
    | Completed st' => loop s2 st'
    | Killed gui => Killed gui
    end.
Proof.
  revert st. induction s1 as [|i s1 IH]; intros st; [reflexivity|].
  cbn [app inference_loop].
  destruct (gen_gui (step i st)) as [gui|]; [|apply IH].
  destruct (kill_signal gui i); [reflexivity | apply IH].
Qed.

(** However the loop ends, the widgets of the other variants are as they
    were. *)
Lemma loop_other_widgets (steps : list Z) (st : LoopState) (gui : GenGui) :
  gen_gui st = Some gui ->
  match loop steps st with
  | Killed gui' =>
      other_widgets model_type (ids gui') = other_widgets model_type (ids gui)
  | Completed st' =>
      exists gui', gen_gui st' = Some gui'
        /\ other_widgets model_type (ids gui') = other_widgets model_type (ids gui)
  end.
Proof.
  revert st gui. induction steps as [|i steps IH]; intros st gui Hg.
  - cbn. exists gui. split; [exact Hg | reflexivity].
  - cbn [inference_loop]. change (gen_gui (step i st)) with (gen_gui st). rewrite Hg.
    destruct (kill_signal gui i); [reflexivity|].
    pose proof (report_progress_widgets model_type audio_length i gui) as (_ & Ho & _).
    specialize (IH {| model_input := model_input (step i st); output := output (step i st);
                      gen_gui := Some (report_progress model_type audio_length i gui) |}
                  _ eq_refl).
    destruct (loop steps _) as [gui'|st'].
    + rewrite IH. exact Ho.
    + destruct IH as (gui' & Hg' & Ho'). exists gui'. split; [exact Hg'|].
      rewrite Ho'. exact Ho.
Qed.

(** A run of steps none of which reads the flag as set leaves the GUI
    attached, with the same flag; if there was a step, the bar and the
    status line show the last one. *)
Lemma loop_completes_widgets (steps : list Z) (st : LoopState) (gui : GenGui) :
  gen_gui st = Some gui ->
  (forall i, In i steps -> kill_signal gui i = false) ->
  exists st' gui',
    loop steps st = Completed st' /\ gen_gui st' = Some gui'
    /\ kill_signal gui' = kill_signal gui
    /\ match rev steps with
       | [] => gui' = gui
       | i :: _ =>
           bar_value model_type (ids gui') = int_percent i audio_length
           /\ status_text model_type (ids gui')
              = (model_status_type model_type ++ " progress: "
                 ++ str (int_percent i audio_length) ++ "%")%string
       end.
Proof.
  revert st gui. induction steps as [|i steps IH] using rev_ind; intros st gui Hg Hk.
  - exists st, gui. repeat split; assumption.
  - destruct (IH st gui Hg) as (st1 & gui1 & Hloop & Hg1 & Hk1 & _).
    { intros j Hj. apply Hk. apply in_or_app. left. exact Hj. }
    rewrite loop_app, Hloop, rev_app_distr. cbn [rev app inference_loop].
    change (gen_gui (step i st1)) with (gen_gui st1). rewrite Hg1, Hk1.
    rewrite (Hk i) by (apply in_or_app; right; left; reflexivity).
    pose proof (report_progress_widgets model_type audio_length i gui1)
      as (Hk' & _ & Hb & Hs).
    eexists. eexists. split; [reflexivity|]. cbn [gen_gui].
    split; [reflexivity|]. split; [rewrite Hk'; exact Hk1|]. split; assumption.
Qed.

End LoopWidgets.

Lemma range_split_at (k n : Z) :
  0 <= k < n -> exists rest, range n = range k ++ k :: rest.
Proof.
  intros Hk. rewrite <- (Z2Nat.id n) by lia.
  assert (Hn : (Z.to_nat k < Z.to_nat n)%nat) by lia. revert Hn.
  induction (Z.to_nat n) as [|m IH]; intros Hm; [lia|].
  rewrite range_nat_succ.
  destruct (Nat.eq_dec (Z.to_nat k) m) as [E|E].
  - exists []. subst m. rewrite Z2Nat.id by lia. reflexivity.
  - destruct (IH ltac:(lia)) as [rest Hr]. exists (rest ++ [Z.of_nat m]).
    rewrite Hr, <- app_assoc. reflexivity.
Qed.

(** X15. [inference] on one variant leaves the widgets of the other two
    variants as they were, whether it completes or is cancelled. *)
Theorem inference_other_widgets (env : Env) (model_path : string) (self : SingingModel)
    (gui : GenGui) (label_data : Array) (model_type : Z) (spectral_data : option Array) :
  match inference env model_path self (Some gui) label_data model_type spectral_data with
  | Returned r =>
      exists w, widgets r = Some w
        /\ other_widgets model_type w = other_widgets model_type (ids gui)
  | SysExit _ => True
  end.
Proof.
  unfold inference.
  destruct (get_generator env model_path self model_type) as [msg|generator]; [exact I|].
  cbv zeta.
  destruct (initial_state_fields self (Some gui) label_data model_type) as (Hg & _).
  pose proof (loop_other_widgets generator (get_receptive_field self model_type)
                label_data model_type spectral_data (Z.of_nat (List.length label_data))
                (range (Z.of_nat (List.length label_data)))
                (initial_state self (Some gui) label_data model_type) gui Hg) as H.
  destruct (inference_loop _ _ _ _ _ _ _ _) as [gui'|st'].
  - exists (ids gui'). split; [reflexivity | exact H].
  - destruct H as (gui' & Hg' & Ho). rewrite Hg'. cbn [option_map widgets].
    eexists. split; [reflexivity|]. rewrite other_widgets_set_status_text. exact Ho.
Qed.

(** X16. With [spectral_data], when given, long enough for the run: when
    the first step that reads the flag as set is step k, the widgets are
    left as the previous step wrote them: untouched for k = 0, and otherwise
    showing the percentage of step k - 1, the float64 value of
    ((k - 1) / N) * 100 cut to an int. The cancelled step itself reports
    nothing. *)
Theorem inference_cancel_progress (env : Env) (model_path : string) (self : SingingModel)
    (gui : GenGui) (label_data : Array) (model_type : Z) (spectral_data : option Array)
    (generator : Generator) (k : Z) :
  let n := Z.of_nat (List.length label_data) in
  spectral_rows spectral_data n ->
  get_generator env model_path self model_type = Returned generator ->
  0 <= k < n ->
  (forall i, 0 <= i < k -> kill_signal gui i = false) ->
  kill_signal gui k = true ->
  exists r w,
    inference env model_path self (Some gui) label_data model_type spectral_data
    = Returned r
    /\ returned r = None /\ widgets r = Some w
    /\ (k = 0 -> w = ids gui)
    /\ (0 < k ->
        bar_value model_type w = int_percent (k - 1) n
        /\ status_text model_type w
           = (model_status_type model_type ++ " progress: "
              ++ str (int_percent (k - 1) n) ++ "%")%string).
Proof.
  intros n _ Hgen Hk Hbefore Hkill.
  destruct (initial_state_fields self (Some gui) label_data model_type) as (Hg & _).
  destruct (range_split_at k n Hk) as [rest Hr].
  destruct (loop_completes_widgets generator (get_receptive_field self model_type)
              label_data model_type spectral_data n (range k)
              (initial_state self (Some gui) label_data model_type) gui Hg)
    as (st1 & gui1 & Hloop & Hg1 & Hk1 & Hw).
  { intros i Hi. apply in_range in Hi. apply Hbefore. exact Hi. }
  unfold inference. rewrite Hgen. cbv zeta. fold n.
  rewrite Hr, loop_app, Hloop. cbn [inference_loop].
  change (gen_gui (generate_step generator (get_receptive_field self model_type) label_data
                     spectral_data k st1)) with (gen_gui st1).
  rewrite Hg1, Hk1, Hkill.
  eexists. exists (ids gui1). split; [reflexivity|]. cbn [returned widgets].
  split; [reflexivity|]. split; [reflexivity|]. split.
  - intros ->. rewrite (range_nonpos 0) in Hw by lia. cbn in Hw. rewrite Hw. reflexivity.
  - intros Hpos. rewrite (range_split_last k), rev_app_distr in Hw by lia. exact Hw.
Qed.

Lemma inference_cancel_progress_witness :
  exists r w,
    inference sample_env "m" (uniform_model (arch 1 1 1 3)) (Some (gui_killed_from 30))
      (sample_labels 100) 2 None = Returned r
    /\ returned r = None /\ widgets r = Some w
    /\ bar_value 2 w = 28
    /\ status_text 2 w = "Frequency progress: 28%"%string.
Proof.
  destruct (inference_cancel_progress sample_env "m" (uniform_model (arch 1 1 1 3))
              (gui_killed_from 30) (sample_labels 100) 2 None counting_generator 30)
    as (r & w & Hr & Hnone & Hw & _ & Hbar).
  - exact I.
  - reflexivity.
  - cbn. lia.
  - intros i Hi. apply Z.leb_gt. lia.
  - reflexivity.
  - exists r, w. split; [exact Hr|]. split; [exact Hnone|]. split; [exact Hw|].
    exact (Hbar eq_refl).
Defined.

(** X17. With [spectral_data], when given, long enough for the run: a run
    with the GUI attached that is not cancelled ends with the status line
    "<variant> generation complete"; the bar is left at the percentage of
    the last step, the float64 value of ((N - 1) / N) * 100 cut to an int,
    and is not touched when there is no step. *)
Theorem inference_completion_widgets (env : Env) (model_path : string)
    (self : SingingModel) (gui : GenGui) (label_data : Array) (model_type : Z)
    (spectral_data : option Array) (generator : Generator) :
  let n := Z.of_nat (List.length label_data) in
  spectral_rows spectral_data n ->
  get_generator env model_path self model_type = Returned generator ->
  (forall i, 0 <= i < n -> kill_signal gui i = false) ->
  exists r out w,
    inference env model_path self (Some gui) label_data model_type spectral_data
    = Returned r
    /\ returned r = Some out /\ widgets r = Some w
    /\ status_text model_type w
       = (model_status_type model_type ++ " generation complete")%string
    /\ (0 < n -> bar_value model_type w = int_percent (n - 1) n)
    /\ (n = 0 -> bar_value model_type w = bar_value model_type (ids gui)).
Proof.
  intros n _ Hgen Hkill.
  destruct (initial_state_fields self (Some gui) label_data model_type) as (Hg & _).
  destruct (loop_completes_widgets generator (get_receptive_field self model_type)
              label_data model_type spectral_data n (range n)
              (initial_state self (Some gui) label_data model_type) gui Hg)
    as (st1 & gui1 & Hloop & Hg1 & Hk1 & Hw).
  { intros i Hi. apply in_range in Hi. apply Hkill. exact Hi. }
  unfold inference. rewrite Hgen. cbv zeta. fold n. rewrite Hloop, Hg1.
  eexists. eexists. eexists. split; [reflexivity|]. cbn [returned widgets option_map].
  split; [reflexivity|]. split; [reflexivity|].
  rewrite status_text_set_status_text, bar_value_set_status_text.
  split; [reflexivity|]. split.
  - intros Hpos. rewrite (range_split_last n), rev_app_distr in Hw by lia. apply Hw.
  - intros Hz. rewrite (range_nonpos n) in Hw by lia. cbn in Hw. rewrite Hw. reflexivity.
Qed.

Lemma inference_completion_widgets_witness :
  exists r out w,
    inference sample_env "m" (uniform_model (arch 1 1 1 3)) (Some (gui_killed_from 200))
      (sample_labels 58) 2 None = Returned r
    /\ returned r = Some out /\ widgets r = Some w
    /\ status_text 2 w = "Frequency generation complete"%string
    /\ bar_value 2 w = 98.
Proof.
  destruct (inference_completion_widgets sample_env "m" (uniform_model (arch 1 1 1 3))
              (gui_killed_from 200) (sample_labels 58) 2 None counting_generator)
    as (r & out & w & Hr & Hout & Hw & Hs & Hbar & _).
  - exact I.
  - reflexivity.
  - intros i Hi. apply Z.leb_gt. cbn in Hi. lia.
  - exists r, out, w. split; [exact Hr|]. split; [exact Hout|]. split; [exact Hw|].
    split; [exact Hs|]. exact (Hbar eq_refl).
Defined.

(** ** inference: the progress percentage is always defined *)

(** X19. The progress report cannot make [int] raise: for a step number
    from 0 and a length from 1, both below 2^53, [(i / audio_length) * 100]
    is a finite float64. *)
Theorem progress_percent_finite (i audio_length : Z) :
  0 <= i < 2 ^ 53 -> 0 < audio_length < 2 ^ 53 ->
  F64.finite (percent i audio_length) = true.
Proof.
  intros Hi Hn. change (finite_sf (Prim2SF (percent i audio_length)) = true).
  unfold percent. rewrite FloatAxioms.mul_spec, FloatAxioms.div_spec.
  change (Prim2SF (float_of_int 100)) with (S754_finite false 7036874417766400 (-46)).
  apply SFmul_hundred; [rewrite <- FloatAxioms.div_spec; apply Prim2SF_valid | | reflexivity].
  destruct (float_of_int_spec audio_length ltac:(lia)) as [[H0 _] | (m2 & e2 & -> & Hd2 & He2)];
    [lia|].
  destruct (float_of_int_spec i Hi) as [[_ ->] | (m1 & e1 & -> & Hd1 & He1)].
  - exact I.
  - apply SFdiv_int; assumption.
Qed.

Lemma progress_percent_finite_witness :
  F64.finite (percent 29 100) = true /\ int_percent 29 100 = 28.
Proof.
  split; [apply (progress_percent_finite 29 100); lia | reflexivity].
Defined.

(** ** inference: the number of columns of the input window *)

Lemma Forall_firstn_skipn {A : Type} (P : A -> Prop) (l : list A) (k m : nat) :
  Forall P l -> Forall P (firstn k (skipn m l)).
Proof.
  intros H. revert m k. induction H as [|x l Hx Hl IH]; intros m k.
  - rewrite skipn_nil, firstn_nil. constructor.
  - destruct m as [|m]; [|apply IH].
    cbn [skipn]. destruct k as [|k]; cbn [firstn]; constructor; [exact Hx|].
    apply (IH 0%nat k).
Qed.

Lemma slice_row_width (w : nat) (a : Array) (lo hi : Z) :
  row_width w a -> row_width w (slice a lo hi).
Proof. intros H. unfold slice. apply Forall_firstn_skipn. exact H. Qed.

Lemma concatenate_cols_width (w1 w2 : nat) (a b : Array) :
  row_width w1 a -> row_width w2 b -> row_width (w1 + w2) (concatenate_cols a b).
Proof.
  unfold row_width, concatenate_cols. intros Ha. revert b.
  induction Ha as [|x a Hx Ha IH]; intros b Hb; [constructor|].
  destruct Hb as [|y b Hy Hb]; cbn; constructor.
  - rewrite length_app. cbn. lia.
  - apply IH. exact Hb.
Qed.

Lemma generated_rows_width (generator : Generator) (receptive_field : Z)
    (label_data : Array) (spectral_data : option Array) (st0 : LoopState) (w : nat) (t : Z) :
  (forall i model_input labels, List.length (generator i model_input labels) = w) ->
  row_width w (generated_rows generator receptive_field label_data spectral_data st0 t).
Proof.
  intros Hg. unfold row_width, generated_rows. apply Forall_map.
  apply Forall_forall. intros i _. apply Hg.
Qed.

(** X18. The input window has the same number of columns at every step,
    the [init_channels] of the variant, when the generator returns rows of
    [channels] columns and the companion data, if given, brings the
    init_channels - channels columns that are missing (none may be missing
    when it is absent). *)
Theorem inference_window_width (self : SingingModel) (gui : option GenGui)
    (label_data : Array) (model_type : Z) (spectral_data : option Array)
    (generator : Generator) :
  let channels := fst (channel_counts self model_type) in
  let init_channels := snd (channel_counts self model_type) in
  let n := Z.of_nat (List.length label_data) in
  let window t :=
    model_input
      (state_before generator (get_receptive_field self model_type) label_data
         spectral_data (initial_state self gui label_data model_type) t) in
  (forall i model_input labels,
     List.length (generator i model_input labels) = Z.to_nat channels) ->
  spectral_rows spectral_data n ->
  match spectral_data with
  | None => init_channels = channels
  | Some spectral_data =>
      0 <= channels <= init_channels
      /\ row_width (Z.to_nat (init_channels - channels)) spectral_data
  end ->
  forall t, 0 <= t < n -> row_width (Z.to_nat init_channels) (window t).
Proof.
  intros channels init_channels n window Hgen Hsp Hcols t Ht.
  destruct (initial_state_fields self gui label_data model_type) as (_ & Hlen & _ & _).
  set (st0 := initial_state self gui label_data model_type) in *.
  set (R := get_receptive_field self model_type) in *.
  assert (Hattach : forall lo hi a,
            row_width (Z.to_nat channels) a ->
            row_width (Z.to_nat init_channels) (attach_spectral spectral_data lo hi a)).
  { intros lo hi a Ha. destruct spectral_data as [sd|]; cbn.
    - destruct Hcols as [Hc Hw].
      replace (Z.to_nat init_channels)
        with (Z.to_nat channels + Z.to_nat (init_channels - channels))%nat by lia.
      apply concatenate_cols_width; [exact Ha | apply slice_row_width; exact Hw].
    - rewrite Hcols. exact Ha. }
  unfold window. rewrite <- (Z2Nat.id t) by lia.
  destruct (Z.to_nat t) as [|m] eqn:Em.
  - change (state_before generator R label_data spectral_data st0 (Z.of_nat 0)) with st0.
    unfold st0, initial_state, init_channels.
    destruct (channel_counts self model_type) as [c ic]. cbn.
    constructor; [apply repeat_length | constructor].
  - rewrite model_input_before_succ by lia.
    pose proof (generated_rows_width generator R label_data spectral_data st0
                  (Z.to_nat channels) (Z.of_nat (S m)) Hgen) as Hrows.
    destruct (Z.of_nat m <? R - 1).
    + pose proof (Hattach 0 (Z.of_nat m + 1) _ Hrows) as Ha.
      assert (Hl : List.length
                     (attach_spectral spectral_data 0 (Z.of_nat m + 1)
                        (generated_rows generator R label_data spectral_data st0
                           (Z.of_nat (S m))))
                   = Z.to_nat (Z.of_nat m + 1 - 0)).
      { apply (attach_spectral_length _ _ _ n); try assumption; try lia.
        rewrite generated_rows_length. lia. }
      unfold pad_start.
      destruct (attach_spectral spectral_data 0 (Z.of_nat m + 1) _) as [|r a];
        [cbn in Hl; lia|].
      constructor; [|exact Ha]. cbn [hd]. rewrite repeat_length.
      inversion Ha; assumption.
    + apply Hattach. apply slice_row_width. exact Hrows.
Qed.

Lemma inference_window_width_witness :
  let self := uniform_model (arch 1 1 1 3) in
  row_width (Z.to_nat (snd (channel_counts self 2)))
    (model_input
       (state_before counting_generator (get_receptive_field self 2) (sample_labels 4) None
          (initial_state self None (sample_labels 4) 2) 3)).
Proof.
  intros self.
  refine (inference_window_width self None (sample_labels 4) 2 None counting_generator
            _ _ _ 3 _).
  - intros i mi lab. reflexivity.
  - exact I.
  - reflexivity.
  - cbn. lia.
Defined.
